(** * Teardown, stage dispatch and overlay wrappers of the container runtime

    A shallow embedding of
    - [internal/pkg/runtime/engine/singularity/cleanup_linux.go]
      ([CleanupContainer], [umount], [cleanupCrypt], [fakerootCleanup]),
    - [cmd/starter/main_linux.go] ([getEngine], [startup]),
    - [internal/pkg/runtime/launcher/oci/oci_overlay.go]
      ([WrapWithWritableTmpFs], [WrapWithOverlays] and their helpers),
    - the overlay [Set] exercised by [overlay_set_linux_test.go],
    - the transport options and image references of the [ociimage] package
      ([SystemContext], [TransportOptionsFromSystemContext], [ParseImageRef])
      and [parseRef] of [e2e/internal/e2e/image.go],
    followed by the properties of the specification checked against them.

    Every call that leaves the modelled file (a syscall, a method of another
    package, a log line) appends one event to the trace of the world; what the
    call answers is given by an environment whose answers may depend on the
    whole history of calls, so that a theorem quantified over the environment
    covers every pattern of failures.

    The models come first, then the environments of the examples, then the
    properties. *)

From Stdlib Require Import ZArith List String Ascii Bool Arith Lia.
Import ListNotations.

Local Open Scope string_scope.
Local Open Scope list_scope.

(** ** Go values shared by the three packages *)

(** A value of Go's [error] interface that is not nil.  [Errno] is
    [syscall.Errno], [ErrorString] an error made by a package outside the
    modelled files, [Errorf] the value built by [fmt.Errorf], kept as its
    format and its arguments (strings and errors are all that the modelled
    code formats). *)
Inductive error : Type :=
| Errno (n : Z)
| ErrorString (msg : string)
| Errorf (format : string) (args : list fmt_arg)
with fmt_arg : Type :=
| ArgString (s : string)
| ArgError (e : error).

(** The levels of [sylog]. *)
Inductive level : Type := Fatal | Error | Warning | Info | Verbose | Debug.

(** What falls out of a loop body or of a block that may [return]. *)
Inductive flow (A R : Type) : Type :=
| Next (a : A)
| Return (r : R).
Arguments Next {A R} a.
Arguments Return {A R} r.

(** ** State passing *)

Section StateMonad.
Variable S : Type.

Definition M (A : Type) : Type := S -> A * S.

Definition ret {A : Type} (a : A) : M A := fun s => (a, s).

Definition bind {A B : Type} (m : M A) (k : A -> M B) : M B :=
  fun s => let (a, s') := m s in k a s'.
End StateMonad.
Arguments ret {S A} a.
Arguments bind {S A B} m k.

Declare Scope monad_scope.
Delimit Scope monad_scope with monad.
Notation "x <- m ;; k" := (bind m (fun x => k))
  (at level 61, m at next level, right associativity) : monad_scope.
Notation "m ;; k" := (bind m (fun _ => k))
  (at level 61, right associativity) : monad_scope.
Local Open Scope monad_scope.

(** ** Strings *)

(** The line feed that Go writes [\n]. *)
Definition LF : string := String (Ascii.ascii_of_nat 10) EmptyString.

(** [strings.Join]. *)
Definition strings_Join (elems : list string) (sep : string) : string :=
  String.concat sep elems.

(** [strings.Cut]-like scan: the text before the first colon and, when there
    is a colon, the text after it. *)
Fixpoint cut_colon (s : string) : string * option string :=
  match s with
  | EmptyString => (EmptyString, None)
  | String c rest =>
      if Ascii.eqb c ":"%char then (EmptyString, Some rest)
      else let (a, b) := cut_colon rest in (String c a, b)
  end.

(** [strings.SplitN(s, ":", 2)]: at most two pieces, cut at the first colon. *)
Definition SplitN_colon_2 (s : string) : list string :=
  match cut_colon s with
  | (a, None) => [a]
  | (a, Some b) => [a; b]
  end.

(** No colon occurs in the string. *)
Fixpoint no_colon (s : string) : bool :=
  match s with
  | EmptyString => true
  | String c rest => negb (Ascii.eqb c ":"%char) && no_colon rest
  end.

(** [filepath.Base] on Linux, on the reversed list of characters. *)
Fixpoint strip_slashes (l : list ascii) : list ascii :=
  match l with
  | c :: l' => if Ascii.eqb c "/"%char then strip_slashes l' else l
  | [] => []
  end.

Fixpoint until_slash (l : list ascii) : list ascii :=
  match l with
  | c :: l' => if Ascii.eqb c "/"%char then [] else c :: until_slash l'
  | [] => []
  end.

Definition filepath_Base (path : string) : string :=
  if String.eqb path "" then "."
  else
    let last := until_slash (strip_slashes (rev (list_ascii_of_string path))) in
    match last with
    | [] => "/"
    | _ => string_of_list_ascii (rev last)
    end.

(** * Model of [cleanup_linux.go] *)

Module Cleanup.

(** The settings of the engine configuration that the teardown reads, through
    the getters of [EngineConfig] (declared outside the modelled file). *)
Record EngineConfig : Type := {
  GetImageFuse : bool;
  GetDeleteTempDir : string;
  GetFakeroot : bool;
  GetNetwork : string;
  GetInstance : bool
}.

Record CommonConfig : Type := { ContainerID : string }.

Record EngineOperations : Type := {
  engineConfig : EngineConfig;
  commonConfig : CommonConfig
}.

(** The package-level registries filled in during setup.  A handle that may
    be nil is an [option]. *)
Record Globals : Type := {
  umountPoints : list string;
  networkSetup : option unit;
  cgroupsManager : option unit;
  cryptDev : string
}.

(** The [*instance.File] returned by [instance.Get]. *)
Record File : Type := { Path : string }.

(** The configuration handed to [starter.Run] by [fakerootCleanup]. *)
Record StarterCommon : Type := {
  EngineName : string;
  StarterContainerID : string;
  Args : list string
}.

(** The calls that [CleanupContainer] and its helpers make.  The three
    [...Call] events mark the entry into a helper of the file itself
    ([umount], [cleanupCrypt], [fakerootCleanup]); every other event is a call
    that leaves the file. *)
Inductive Event : Type :=
| EvStopFuseDrivers
| EvUmountCall (lazy : bool)
| EvCleanupCryptCall (path : string)
| EvFakerootCleanupCall (path : string)
| EvLockOSThread
| EvUnlockOSThread
| EvSetProcessEffective (caps : Z)
| EvUnmount (target : string) (flags : Z)
| EvGetuid
| EvGeteuid
| EvFindBin (name : string)
| EvStarterRun (name : string) (cfg : StarterCommon) (useSuid : bool)
| EvRemoveAll (path : string)
| EvEscalate
| EvDrop
| EvDelNetworks
| EvCgroupsDestroy
| EvCloseCryptDevice (devName : string)
| EvInstanceGet (name subDir : string)
| EvFileDelete (file : File)
| EvLog (lvl : level) (format : string) (args : list fmt_arg).

(** What the world outside the file answers.  Each answer is a function of
    the calls made so far. *)
Record Env : Type := {
  CAP_SYS_ADMIN_Value : Z;
  fakerootConfig_Name : string;
  instance_SingSubDir : string;
  sys_Unmount : list Event -> string -> Z -> option Z;
  capset_error : list Event -> Z -> option error;
  os_Getuid : list Event -> Z;
  os_Geteuid : list Event -> Z;
  bin_FindBin_result : list Event -> string -> string + error;
  starter_Run_result : list Event -> StarterCommon -> option error;
  os_RemoveAll_result : list Event -> string -> option error;
  DelNetworks_result : list Event -> option error;
  cgroups_Destroy_result : list Event -> option error;
  CloseCryptDevice_result : list Event -> string -> option error;
  instance_Get_result : list Event -> string -> string -> File + error;
  file_Delete_result : list Event -> File -> option error
}.

(** The state of the process: the calls made so far and the effective
    capability set of the locked thread (a [uint64]). *)
Record World : Type := {
  trace : list Event;
  effective : Z
}.

Definition record (ev : Event) (w : World) : World :=
  {| trace := trace w ++ [ev]; effective := effective w |}.

Definition EINVAL : Z := 22.
Definition EBUSY : Z := 16.
Definition MNT_DETACH : Z := 2.

Section Code.
Variable env : Env.
Variable g : Globals.

(** A call whose answer comes from the environment. *)
Definition extern {A : Type} (ev : Event) (answer : list Event -> A) : M World A :=
  fun w => (answer (trace w), record ev w).

Definition emit (ev : Event) : M World unit := extern ev (fun _ => tt).

Definition sylog (lvl : level) (format : string) (args : list fmt_arg) : M World unit :=
  emit (EvLog lvl format args).

Definition syscall_Unmount (target : string) (flags : Z) : M World (option Z) :=
  extern (EvUnmount target flags) (fun h => sys_Unmount env h target flags).

(** Modelled from the spec: [capabilities.SetProcessEffective] lives in
    [pkg/util/capabilities], outside the modelled files.  It sets the
    effective set and returns the previous one; a failure returns an error
    without modifying process state. *)
Definition SetProcessEffective (caps : Z) : M World (Z * option error) :=
  fun w =>
    match capset_error env (trace w) caps with
    | Some e => ((0%Z, Some e), record (EvSetProcessEffective caps) w)
    | None =>
        ((effective w, None),
         {| trace := trace w ++ [EvSetProcessEffective caps];
            effective := caps |})
    end.

(** The block from the label [retry:] to the end of the loop body of
    [umount].  [retries] is the counter of the source; [fuel] only makes the
    recursion structural ([unmount_retry_fuel] shows that any fuel of at
    least [10 - retries] gives the same run). *)
Fixpoint unmount_retry (fuel retries : nat) (p : string) (umountFlags : Z)
  : M World (flow (option error) error) :=
  err <- syscall_Unmount p umountFlags ;;
  match err with
  | Some errno =>
      if negb (errno =? EINVAL)%Z then
        if (errno =? EBUSY)%Z && (retries <? 10)%nat then
          match fuel with
          | S fuel' => unmount_retry fuel' (S retries) p umountFlags
          | O => ret (Return (Errorf "while unmounting %s directory: %s"
                                [ArgString p; ArgError (Errno errno)]))
          end
        else
          ret (Return (Errorf "while unmounting %s directory: %s"
                         [ArgString p; ArgError (Errno errno)]))
      else ret (Next (Some (Errno errno)))
  | None => ret (Next None)
  end.

(** [for i := len(umountPoints) - 1; i >= 0; i--], with [n = i + 1]; [err]
    is the named result of [umount], assigned by every attempt. *)
Fixpoint umount_loop (n : nat) (umountFlags : Z) (err : option error)
  : M World (flow (option error) error) :=
  match n with
  | O => ret (Next err)
  | S i =>
      let p := nth i (umountPoints g) "" in
      sylog Debug "Umount %s" [ArgString p] ;;
      r <- unmount_retry 10 0 p umountFlags ;;
      match r with
      | Next err' => umount_loop i umountFlags err'
      | Return e => ret (Return e)
      end
  end.

Definition umount (lazy : bool) : M World (option error) :=
  emit (EvUmountCall lazy) ;;
  let caps := Z.lor 0 (Z.shiftl 1 (CAP_SYS_ADMIN_Value env) mod 2 ^ 64) in
  let umountFlags := if lazy then MNT_DETACH else 0%Z in
  emit EvLockOSThread ;;
  r <- SetProcessEffective caps ;;
  let (oldEffective, err) := r in
  match err with
  | Some _ =>
      emit EvUnlockOSThread ;;
      ret err
  | None =>
      r <- umount_loop (List.length (umountPoints g)) umountFlags None ;;
      let err := match r with Next err => err | Return e => Some e end in
      (* deferred: restore the capabilities, then unlock the thread *)
      r' <- SetProcessEffective oldEffective ;;
      let err := match err with None => snd r' | Some _ => err end in
      emit EvUnlockOSThread ;;
      ret err
  end.

Definition cleanupCrypt (path : string) : M World (option error) :=
  emit (EvCleanupCryptCall path) ;;
  err <- umount false ;;
  match err with
  | Some _ => ret err
  | None =>
      let devName := filepath_Base path in
      err <- extern (EvCloseCryptDevice devName)
               (fun h => CloseCryptDevice_result env h devName) ;;
      match err with
      | Some _ =>
          ret (Some (Errorf "unable to delete crypt device: %s" [ArgString devName]))
      | None => ret None
      end
  end.

Definition fakerootCleanup (path : string) : M World (option error) :=
  emit (EvFakerootCleanupCall path) ;;
  r <- extern (EvFindBin "rm") (fun h => bin_FindBin_result env h "rm") ;;
  match r with
  | inr err => ret (Some err)
  | inl rm =>
      let command := [rm; "-rf"; path] in
      sylog Debug "Calling fakeroot engine to execute %q"
        [ArgString (strings_Join command " ")] ;;
      let cfg := {| EngineName := fakerootConfig_Name env;
                    StarterContainerID := "fakeroot";
                    Args := command |} in
      extern (EvStarterRun "Singularity fakeroot" cfg true)
        (fun h => starter_Run_result env h cfg)
  end.

(** [if err != nil { sylog... }] *)
Definition log_if_error (lvl : level) (format : string)
    (args : error -> list fmt_arg) (err : option error) : M World unit :=
  match err with
  | Some e => sylog lvl format (args e)
  | None => ret tt
  end.

Definition CleanupContainer (e : EngineOperations) : M World (option error) :=
  emit EvStopFuseDrivers ;;
  (if GetImageFuse (engineConfig e) then
     err <- umount true ;;
     log_if_error Error "%s" (fun x => [ArgError x]) err
   else ret tt) ;;
  (let tempDir := GetDeleteTempDir (engineConfig e) in
   if negb (String.eqb tempDir "") && negb (GetImageFuse (engineConfig e)) then
     sylog Verbose "Removing image tempDir %s" [ArgString tempDir] ;;
     sylog Info "Cleaning up image..." [] ;;
     uid <- (if GetFakeroot (engineConfig e)
             then extern EvGetuid (os_Getuid env) else ret 0%Z) ;;
     err <- (if GetFakeroot (engineConfig e) && negb (uid =? 0)%Z
             then fakerootCleanup tempDir
             else extern (EvRemoveAll tempDir)
                    (fun h => os_RemoveAll_result env h tempDir)) ;;
     log_if_error Error "failed to delete container image tempDir %s: %s"
       (fun x => [ArgString tempDir; ArgError x]) err
   else ret tt) ;;
  (match networkSetup g with
   | Some _ =>
       let net := GetNetwork (engineConfig e) in
       euid <- (if negb (String.eqb net "none")
                then extern EvGeteuid (os_Geteuid env) else ret 0%Z) ;;
       let privileged := negb (String.eqb net "none") && negb (euid =? 0)%Z in
       (if privileged then emit EvEscalate else ret tt) ;;
       sylog Debug "Cleaning up CNI network config %s" [ArgString net] ;;
       err <- extern EvDelNetworks (DelNetworks_result env) ;;
       log_if_error Error "could not delete networks: %v" (fun x => [ArgError x]) err ;;
       (if privileged then emit EvDrop else ret tt)
   | None => ret tt
   end) ;;
  (match cgroupsManager g with
   | Some _ =>
       err <- extern EvCgroupsDestroy (cgroups_Destroy_result env) ;;
       log_if_error Warning "failed to remove cgroup configuration: %v"
         (fun x => [ArgError x]) err
   | None => ret tt
   end) ;;
  (if negb (String.eqb (cryptDev g) "") then
     err <- cleanupCrypt (cryptDev g) ;;
     log_if_error Error "could not cleanup crypt: %v" (fun x => [ArgError x]) err
   else ret tt) ;;
  if GetInstance (engineConfig e) then
    r <- extern (EvInstanceGet (ContainerID (commonConfig e)) (instance_SingSubDir env))
           (fun h => instance_Get_result env h (ContainerID (commonConfig e))
                       (instance_SingSubDir env)) ;;
    match r with
    | inr err => ret (Some err)
    | inl file => extern (EvFileDelete file) (fun h => file_Delete_result env h file)
    end
  else ret None.
End Code.

(** ** Vocabulary of the properties *)

(** The world after some more calls. *)
Definition add_events (l : list Event) (w : World) : World :=
  {| trace := trace w ++ l; effective := effective w |}.

(** The number of [unmount(2)] calls at the very end of a history: the
    attempts already made on the point in hand. *)
Fixpoint leading_unmounts (h : list Event) : nat :=
  match h with
  | EvUnmount _ _ :: h' => S (leading_unmounts h')
  | _ => 0
  end.

Definition trailing_unmounts (h : list Event) : nat := leading_unmounts (rev h).

(** The errno with which an [unmount(2)] call made after history [h] is
    fatal: any errno but EINVAL, and EBUSY only once the ten retries are
    used up. *)
Definition fatal (env : Env) (h : list Event) (p : string) (flags : Z) : option Z :=
  match sys_Unmount env h p flags with
  | Some errno =>
      if negb (errno =? EINVAL)%Z
         && negb ((errno =? EBUSY)%Z && (trailing_unmounts h <? 10)%nat)
      then Some errno else None
  | None => None
  end.

(** The error that [umount] makes of a fatal errno. *)
Definition unmount_error (p : string) (errno : Z) : error :=
  Errorf "while unmounting %s directory: %s" [ArgString p; ArgError (Errno errno)].

(** The value of the named result [err] when the loop is left. *)
Definition loop_error (r : flow (option error) error) : option error :=
  match r with
  | Next err => err
  | Return e => Some e
  end.

(** The events that [umount] produces after the mark of its call. *)
Definition umount_inner (ev : Event) : bool :=
  match ev with
  | EvLockOSThread | EvUnlockOSThread | EvSetProcessEffective _
  | EvUnmount _ _ | EvLog _ _ _ => true
  | _ => false
  end.

(** The calls that neither start a step of the teardown, nor remove a
    directory, nor touch the instance file. *)
Definition quiet_event (ev : Event) : bool :=
  match ev with
  | EvUmountCall false
  | EvLockOSThread | EvUnlockOSThread | EvSetProcessEffective _
  | EvUnmount _ _ | EvLog _ _ _
  | EvGetuid | EvGeteuid | EvFindBin _
  | EvEscalate | EvDrop | EvCloseCryptDevice _ => true
  | _ => false
  end.

Definition is_unmount (ev : Event) : bool :=
  match ev with
  | EvUnmount _ _ => true
  | _ => false
  end.

(** [umount] with more points registered in front of the list. *)
Definition register_before (earlier : list string) (g : Globals) : Globals :=
  {| umountPoints := earlier ++ umountPoints g;
     networkSetup := networkSetup g;
     cgroupsManager := cgroupsManager g;
     cryptDev := cryptDev g |}.

(** The capability word that [umount] raises. *)
Definition raised_caps (env : Env) : Z :=
  Z.lor 0 (Z.shiftl 1 (CAP_SYS_ADMIN_Value env) mod 2 ^ 64).

Definition umount_flags (lazy : bool) : Z := if lazy then MNT_DETACH else 0%Z.

(** The specification's bound, as a property of the loop body: after [n]
    consecutive "device busy" answers on a point the loop is left with the
    fatal error, no further attempt being made. *)
Definition busy_is_fatal_after (n : nat) : Prop :=
  forall (env : Env) (g : Globals) (flags : Z) (err : option error) (i : nat) (w : World),
    let p := nth i (umountPoints g) "" in
    let w1 := record (EvLog Debug "Umount %s" [ArgString p]) w in
    (forall j, j < n ->
       sys_Unmount env (trace w1 ++ repeat (EvUnmount p flags) j) p flags = Some EBUSY) ->
    umount_loop env g (S i) flags err w
    = (Return (unmount_error p EBUSY), add_events (repeat (EvUnmount p flags) n) w1).

(** The seven steps of the teardown, each known by the call that starts
    it: 1 stop the FUSE drivers, 2 lazy unmount, 3 removal of the temporary
    directory (through the fakeroot helper or directly), 4 network
    detachment, 5 cgroup destruction, 6 crypt device cleanup, 7 lookup and
    deletion of the instance file. *)
Definition step_of_event (ev : Event) : list nat :=
  match ev with
  | EvStopFuseDrivers => [1]
  | EvUmountCall true => [2]
  | EvFakerootCleanupCall _ | EvRemoveAll _ => [3]
  | EvDelNetworks => [4]
  | EvCgroupsDestroy => [5]
  | EvCleanupCryptCall _ => [6]
  | EvInstanceGet _ _ => [7]
  | _ => []
  end.

(** The steps 1 to 6 that a configuration and the registries call for. *)
Definition steps_before_instance (g : Globals) (e : EngineOperations) : list nat :=
  [1]
  ++ (if GetImageFuse (engineConfig e) then [2] else [])
  ++ (if negb (String.eqb (GetDeleteTempDir (engineConfig e)) "")
         && negb (GetImageFuse (engineConfig e)) then [3] else [])
  ++ (match networkSetup g with Some _ => [4] | None => [] end)
  ++ (match cgroupsManager g with Some _ => [5] | None => [] end)
  ++ (if negb (String.eqb (cryptDev g) "") then [6] else []).

(** The end of a step whose failure is only logged: the world that the
    step leaves, with one log line when the step has failed.  The error
    goes nowhere else, and the next step starts from this world. *)
Definition only_logged (lvl : level) (format : string) (args : error -> list fmt_arg)
    (r : option error * World) : World :=
  match fst r with
  | Some x => record (EvLog lvl format (args x)) (snd r)
  | None => snd r
  end.

(** Step 2: the lazy unmount, for an image served through FUSE. *)
Definition lazy_unmount_step (env : Env) (g : Globals) (e : EngineOperations)
    (w : World) : World :=
  if GetImageFuse (engineConfig e)
  then only_logged Error "%s" (fun x => [ArgError x]) (umount env g true w)
  else w.

(** Step 3: the removal of the temporary directory. *)
Definition tempdir_step (env : Env) (e : EngineOperations) (w : World) : World :=
  let tempDir := GetDeleteTempDir (engineConfig e) in
  if negb (String.eqb tempDir "") && negb (GetImageFuse (engineConfig e)) then
    let w1 := record (EvLog Info "Cleaning up image..." [])
                (record (EvLog Verbose "Removing image tempDir %s" [ArgString tempDir]) w) in
    only_logged Error "failed to delete container image tempDir %s: %s"
      (fun x => [ArgString tempDir; ArgError x])
      (if GetFakeroot (engineConfig e) then
         let w2 := record EvGetuid w1 in
         if negb (os_Getuid env (trace w1) =? 0)%Z
         then fakerootCleanup env tempDir w2
         else (os_RemoveAll_result env (trace w2) tempDir, record (EvRemoveAll tempDir) w2)
       else (os_RemoveAll_result env (trace w1) tempDir, record (EvRemoveAll tempDir) w1))
  else w.

(** Step 4: the network detachment, with privileges when a CNI
    configuration was set up by a user that is not root. *)
Definition network_step (env : Env) (g : Globals) (e : EngineOperations)
    (w : World) : World :=
  match networkSetup g with
  | Some _ =>
      let net := GetNetwork (engineConfig e) in
      let asked := negb (String.eqb net "none") in
      let privileged := asked && negb (os_Geteuid env (trace w) =? 0)%Z in
      let w1 := if asked then record EvGeteuid w else w in
      let w2 := if privileged then record EvEscalate w1 else w1 in
      let w3 := record (EvLog Debug "Cleaning up CNI network config %s" [ArgString net]) w2 in
      let w4 := only_logged Error "could not delete networks: %v" (fun x => [ArgError x])
                  (DelNetworks_result env (trace w3), record EvDelNetworks w3) in
      if privileged then record EvDrop w4 else w4
  | None => w
  end.

(** Step 5: the destruction of the cgroup; its failure is a warning. *)
Definition cgroups_step (env : Env) (g : Globals) (w : World) : World :=
  match cgroupsManager g with
  | Some _ =>
      only_logged Warning "failed to remove cgroup configuration: %v"
        (fun x => [ArgError x])
        (cgroups_Destroy_result env (trace w), record EvCgroupsDestroy w)
  | None => w
  end.

(** Step 6: the cleanup of the crypt device. *)
Definition crypt_step (env : Env) (g : Globals) (w : World) : World :=
  if negb (String.eqb (cryptDev g) "")
  then only_logged Error "could not cleanup crypt: %v" (fun x => [ArgError x])
         (cleanupCrypt env g (cryptDev g) w)
  else w.

(** The world after the steps 1 to 6: each step starts from the world that
    the step before has left, whether that step has failed or not. *)
Definition before_instance (env : Env) (g : Globals) (e : EngineOperations)
    (w : World) : World :=
  crypt_step env g
    (cgroups_step env g
       (network_step env g e
          (tempdir_step env e
             (lazy_unmount_step env g e
                (record EvStopFuseDrivers w))))).

(** The world [w'] is reached from [w] by events that project to [s]. *)
Definition reaches {X : Type} (proj : Event -> list X) (w w' : World) (s : list X)
  : Prop :=
  exists new, trace w' = trace w ++ new /\ flat_map proj new = s.

(** How the temporary directory is removed: by a starter subprocess
    ([starter.Run] with its name, its configuration and, for [suid], the
    option [starter.UseSuid]), or by [os.RemoveAll]. *)
Inductive removal : Type :=
| ViaFakeroot (name : string) (cfg : StarterCommon) (suid : bool)
| Plain (path : string).

Definition removal_of_event (ev : Event) : list removal :=
  match ev with
  | EvStarterRun name cfg suid => [ViaFakeroot name cfg suid]
  | EvRemoveAll path => [Plain path]
  | _ => []
  end.

(** The subprocess of [fakerootCleanup]: the fakeroot engine running
    [rm -rf path], started with the setuid starter. *)
Definition fakeroot_rm (env : Env) (rm path : string) : removal :=
  ViaFakeroot "Singularity fakeroot"
    {| EngineName := fakerootConfig_Name env;
       StarterContainerID := "fakeroot";
       Args := [rm; "-rf"; path] |}
    true.

(** The calls on the instance file. *)
Definition instance_of_event (ev : Event) : list Event :=
  match ev with
  | EvInstanceGet _ _ | EvFileDelete _ => [ev]
  | _ => []
  end.

(** The specification's words on the temporary directory, as a property of
    [CleanupContainer]: a recorded directory is always removed. *)
Definition tempdir_always_removed : Prop :=
  forall (env : Env) (g : Globals) (e : EngineOperations) (w : World),
    GetDeleteTempDir (engineConfig e) <> "" ->
    exists new,
      trace (snd (CleanupContainer env g e w)) = trace w ++ new
      /\ flat_map removal_of_event new <> [].

(** The specification's words on the restore, as a property of [umount]: a
    failure of the deferred restore reaches the caller. *)
Definition restore_failure_propagates : Prop :=
  forall (env : Env) (g : Globals) (lazy : bool) (w : World) (e : error),
    let w0 := add_events [EvUmountCall lazy; EvLockOSThread] w in
    let caps := raised_caps env in
    let w1 := {| trace := trace w0 ++ [EvSetProcessEffective caps];
                 effective := caps |} in
    capset_error env (trace w0) caps = None ->
    capset_error env
      (trace (snd (umount_loop env g (List.length (umountPoints g))
                     (umount_flags lazy) None w1)))
      (effective w) = Some e ->
    fst (umount env g lazy w) = Some e.

(** Whatever the world, the new events of [m] project to [s]. *)
Definition emits {X A : Type} (proj : Event -> list X) (m : M World A) (s : list X)
  : Prop :=
  forall w, exists new, trace (snd (m w)) = trace w ++ new /\ flat_map proj new = s.

(** The locking and unlocking of the OS thread. *)
Definition is_thread_lock (ev : Event) : bool :=
  match ev with
  | EvLockOSThread | EvUnlockOSThread => true
  | _ => false
  end.

(** The closing of a crypt device, known by the device name. *)
Definition close_of_event (ev : Event) : list string :=
  match ev with
  | EvCloseCryptDevice devName => [devName]
  | _ => []
  end.

(** The escalation of privileges, the network detachment and the drop of
    privileges. *)
Definition priv_of_event (ev : Event) : list Event :=
  match ev with
  | EvEscalate | EvDelNetworks | EvDrop => [ev]
  | _ => []
  end.

(** The calls made inside the helpers [umount], [cleanupCrypt] and
    [fakerootCleanup], their marks included, and the log lines. *)
Definition helper_event (ev : Event) : bool :=
  match ev with
  | EvUmountCall _ | EvCleanupCryptCall _ | EvFakerootCleanupCall _
  | EvLockOSThread | EvUnlockOSThread | EvSetProcessEffective _
  | EvUnmount _ _ | EvLog _ _ _
  | EvFindBin _ | EvStarterRun _ _ _ | EvCloseCryptDevice _ => true
  | _ => false
  end.

(** The [unmount(2)] calls of a run, point by point: each entry is a mount
    point with the number of attempts made on it. *)
Definition attempts_events (flags : Z) (attempts : list (string * nat)) : list Event :=
  flat_map (fun a => repeat (EvUnmount (fst a) flags) (snd a)) attempts.

(** Whatever the world, the projection of the new events of [m] satisfies
    [P]. *)
Definition emits_some {X A : Type} (proj : Event -> list X) (m : M World A)
    (P : list X -> Prop) : Prop :=
  forall w, exists new, trace (snd (m w)) = trace w ++ new /\ P (flat_map proj new).

End Cleanup.

(** * Model of [cmd/starter/main_linux.go] *)

Module Starter.

(** Modelled from the spec: the stage selector [C.goexecute] is an enum of
    [c/starter.h], outside the modelled files, with the five stage values.
    [OTHER] stands for any other content of the C variable. *)
Inductive goexec : Type :=
| STAGE1 | STAGE2 | MASTER | RPC_SERVER | CLEANUP_HOST
| OTHER (n : Z).

(** [*engine.Engine], as far as [startup] looks into it. *)
Record Engine : Type := { EngineName : string }.

(** The handle on the shared configuration block. *)
Inductive SConfig : Type := sconfig_handle.

(** A call of one of the five stage functions of [internal/app/starter]. *)
Inductive StageCall : Type :=
| StageOne (sconfig : SConfig) (e : Engine)
| StageTwo (masterSocket : Z) (e : Engine)
| Master (rpcSocket masterSocket cleanupSocket : Z) (pid : Z) (imageFd : Z) (e : Engine)
| RPCServer (socket : Z) (e : Engine)
| CleanupHost (socket : Z) (e : Engine).

(** The calls that [startup] makes, and the end of the process. *)
Inductive Event : Type :=
| EvNewConfig
| EvGetJSONConfig
| EvEngineGet (jsonConfig : string)
| EvGetContainerPid
| EvGetImageFd
| EvRelease
| EvMainthreadExecute
| EvStage (call : StageCall)
| EvLog (lvl : level) (format : string) (args : list fmt_arg)
| EvExit (code : Z).

(** The C globals and the answers of the other packages. *)
Record Env : Type := {
  goexecute : goexec;
  master_socket : Z * Z;
  rpc_socket : Z * Z;
  cleanup_socket : Z * Z;
  GetJSONConfig_result : list Event -> string;
  engine_Get_result : list Event -> string -> Engine + error;
  GetContainerPid_result : list Event -> Z;
  GetImageFd_result : list Event -> Z;
  Release_result : list Event -> option error;
  (** a stage function either ends the process with a status or returns *)
  stage_exit : list Event -> StageCall -> option Z
}.

Record World : Type := { trace : list Event }.

Definition record (ev : Event) (w : World) : World :=
  {| trace := trace w ++ [ev] |}.

(** How a piece of the process ends: it goes on with a value, or the process
    has exited. *)
Inductive outcome (A : Type) : Type :=
| Done (a : A)
| Exited (code : Z).
Arguments Done {A} a.
Arguments Exited {A} code.

Definition P (A : Type) : Type := M World (outcome A).

Definition bindP {A B : Type} (m : P A) (k : A -> P B) : P B :=
  r <- m ;;
  match r with
  | Done a => k a
  | Exited code => ret (Exited code)
  end.

Notation "x <~ m ;; k" := (bindP m (fun x => k))
  (at level 61, m at next level, right associativity) : monad_scope.
Notation "m ~;; k" := (bindP m (fun _ => k))
  (at level 61, right associativity) : monad_scope.

Section Code.
Variable env : Env.

Definition extern {A : Type} (ev : Event) (answer : list Event -> A) : P A :=
  fun w => (Done (answer (trace w)), record ev w).

Definition sylog (lvl : level) (format : string) (args : list fmt_arg) : P unit :=
  extern (EvLog lvl format args) (fun _ => tt).

(** Modelled from the spec: [sylog.Fatalf] is in [pkg/sylog], outside the
    modelled files; a fatal error logs its message and ends the process
    (status 255). *)
Definition sylog_Fatalf {A : Type} (format : string) (args : list fmt_arg) : P A :=
  fun w => (Exited 255%Z, record (EvExit 255%Z) (record (EvLog Fatal format args) w)).

(** A stage function of [internal/app/starter]: it runs, and either exits
    the process or returns. *)
Definition stage (call : StageCall) : P unit :=
  fun w =>
    match stage_exit env (trace w) call with
    | Some code => (Exited code, record (EvExit code) (record (EvStage call) w))
    | None => (Done tt, record (EvStage call) w)
    end.

(** Modelled from the spec: [mainthread.Execute] is in
    [internal/pkg/util/mainthread], outside the modelled files; it runs the
    function on the OS thread reserved for it (the loop of [main]) and
    comes back when the function does. *)
Definition mainthread_Execute (f : P unit) : P unit :=
  extern EvMainthreadExecute (fun _ => tt) ~;; f.

Definition sconfig_Release : P unit :=
  err <~ extern EvRelease (Release_result env) ;;
  match err with
  | Some e => sylog_Fatalf "%s" [ArgError e]
  | None => ret (Done tt)
  end.

Definition getEngine (jsonConfig : string) : P Engine :=
  r <~ extern (EvEngineGet jsonConfig) (fun h => engine_Get_result env h jsonConfig) ;;
  match r with
  | inr err => sylog_Fatalf ("Failed to initialize runtime engine: %s" ++ LF)%string [ArgError err]
  | inl e => ret (Done e)
  end.

Definition startup : P unit :=
  sconfig <~ extern EvNewConfig (fun _ => sconfig_handle) ;;
  jsonConfig <~ extern EvGetJSONConfig (GetJSONConfig_result env) ;;
  e <~ getEngine jsonConfig ;;
  sylog Debug "%s runtime engine selected" [ArgString (EngineName e)] ~;;
  match goexecute env with
  | STAGE1 =>
      sylog Verbose ("Execute stage 1" ++ LF)%string [] ~;;
      stage (StageOne sconfig e)
  | STAGE2 =>
      sylog Verbose ("Execute stage 2" ++ LF)%string [] ~;;
      sconfig_Release ~;;
      mainthread_Execute (stage (StageTwo (snd (master_socket env)) e))
  | MASTER =>
      sylog Verbose ("Execute master process" ++ LF)%string [] ~;;
      pid <~ extern EvGetContainerPid (GetContainerPid_result env) ;;
      imageFd <~ extern EvGetImageFd (GetImageFd_result env) ;;
      sconfig_Release ~;;
      stage (Master (fst (rpc_socket env)) (fst (master_socket env))
               (fst (cleanup_socket env)) pid imageFd e)
  | RPC_SERVER =>
      sylog Verbose ("Serve RPC requests" ++ LF)%string [] ~;;
      sconfig_Release ~;;
      stage (RPCServer (snd (rpc_socket env)) e)
  | CLEANUP_HOST =>
      sylog Verbose "Execute Cleanup Host Process" [] ~;;
      sconfig_Release ~;;
      stage (CleanupHost (snd (cleanup_socket env)) e)
  | OTHER _ => ret (Done tt)
  end ~;;
  sylog_Fatalf ("You should not be there" ++ LF)%string [].

(** The stage function that belongs to a selector value. *)
Definition stage_function (call : StageCall) : goexec :=
  match call with
  | StageOne _ _ => STAGE1
  | StageTwo _ _ => STAGE2
  | Master _ _ _ _ _ _ => MASTER
  | RPCServer _ _ => RPC_SERVER
  | CleanupHost _ _ => CLEANUP_HOST
  end.
End Code.

(** The stage functions invoked along a trace, in order. *)
Fixpoint invoked (t : list Event) : list StageCall :=
  match t with
  | EvStage call :: t' => call :: invoked t'
  | _ :: t' => invoked t'
  | [] => []
  end.

Definition is_stage_value (sel : goexec) : bool :=
  match sel with
  | OTHER _ => false
  | _ => true
  end.

(** ** Vocabulary of the properties *)

Definition add_events (l : list Event) (w : World) : World :=
  {| trace := trace w ++ l |}.

(** The specification's words on the dispatch, as a property of [startup]:
    for each of the five selector values the corresponding stage function,
    and it alone, is invoked. *)
Definition dispatch_always_invokes : Prop :=
  forall (env : Env) (w : World),
    is_stage_value (goexecute env) = true ->
    exists new,
      trace (snd (startup env w)) = trace w ++ new
      /\ map stage_function (invoked new) = [goexecute env].

(** The two ways in which [startup] ends the process before the dispatch
    reaches a stage function. *)
Definition engine_failure (env : Env) (w : World) (new : list Event) : Prop :=
  exists pre err,
    new = pre ++ [EvEngineGet (GetJSONConfig_result env (trace w ++ [EvNewConfig]));
                  EvLog Fatal ("Failed to initialize runtime engine: %s" ++ LF)%string
                    [ArgError err];
                  EvExit 255]
    /\ engine_Get_result env (trace w ++ pre)
         (GetJSONConfig_result env (trace w ++ [EvNewConfig])) = inr err.

Definition release_failure (env : Env) (w : World) (new : list Event) : Prop :=
  exists pre err,
    new = pre ++ [EvRelease; EvLog Fatal "%s" [ArgError err]; EvExit 255]
    /\ Release_result env (trace w ++ pre) = Some err.

(** The JSON configuration that [startup] reads, and what [engine.Get]
    answers to it when [startup] calls it. *)
Definition json_config (env : Env) (w : World) : string :=
  GetJSONConfig_result env (trace w ++ [EvNewConfig]).

Definition engine_answer (env : Env) (w : World) : Engine + error :=
  engine_Get_result env (trace w ++ [EvNewConfig; EvGetJSONConfig]) (json_config env w).

(** The calls of [startup] up to the release of the shared configuration,
    for the four selector values with a release, and what [Release] answers
    when [startup] calls it. *)
Definition before_release (env : Env) (w : World) (e : Engine) : list Event :=
  [EvNewConfig; EvGetJSONConfig; EvEngineGet (json_config env w);
   EvLog Debug "%s runtime engine selected" [ArgString (EngineName e)]]
  ++ match goexecute env with
     | STAGE2 => [EvLog Verbose ("Execute stage 2" ++ LF)%string []]
     | MASTER => [EvLog Verbose ("Execute master process" ++ LF)%string [];
                  EvGetContainerPid; EvGetImageFd]
     | RPC_SERVER => [EvLog Verbose ("Serve RPC requests" ++ LF)%string []]
     | CLEANUP_HOST => [EvLog Verbose "Execute Cleanup Host Process" []]
     | STAGE1 | OTHER _ => []
     end.

Definition release_answer (env : Env) (w : World) (e : Engine) : option error :=
  Release_result env (trace w ++ before_release env w e).

(** The discipline of the shared configuration along a trace, [released]
    telling whether it has been released already: it is read, and handed to
    [StageOne], only before its release; the other four stage functions are
    invoked only after it; and it is released at most once. *)
Fixpoint release_discipline (released : bool) (t : list Event) : bool :=
  match t with
  | [] => true
  | EvRelease :: t' => negb released && release_discipline true t'
  | EvGetJSONConfig :: t' | EvGetContainerPid :: t' | EvGetImageFd :: t'
  | EvStage (StageOne _ _) :: t' => negb released && release_discipline released t'
  | EvStage _ :: t' => released && release_discipline released t'
  | _ :: t' => release_discipline released t'
  end.

Definition is_release (ev : Event) : bool :=
  match ev with
  | EvRelease => true
  | _ => false
  end.

Definition is_mainthread (ev : Event) : bool :=
  match ev with
  | EvMainthreadExecute => true
  | _ => false
  end.

(** The formats of the three fatal messages of [startup]. *)
Definition fatal_formats : list string :=
  [("Failed to initialize runtime engine: %s" ++ LF)%string; "%s";
   ("You should not be there" ++ LF)%string].

End Starter.

(** * Model of [oci_overlay.go] *)

Module OciOverlay.

(** [tools.OverlaySet]. *)
Record OverlaySet : Type := {
  WritableLoc : string;
  ReadonlyLocs : list string
}.

(** [*singularityconf.File], as far as the file reads it. *)
Record ConfFile : Type := { SessiondirMaxSize : Z }.

(** The calls that the wrappers make; [EvPayload] stands for what a payload
    [f] does on its own. *)
Inductive Event : Type :=
| EvGetCurrentConfig
| EvCreateOverlayTmpfs (bundleDir : string) (sizeMiB : Z)
| EvDeleteOverlayTmpfs (bundleDir overlayDir : string)
| EvApplyOverlay (rootFsDir : string) (ovs : OverlaySet)
| EvUnmountOverlay (rootFsDir : string)
| EvAbs (path : string)
| EvPayload (note : string)
| EvLog (lvl : level) (format : string) (args : list fmt_arg).

Record Env : Type := {
  RootFs_Path : string -> string;
  GetCurrentConfig_result : list Event -> option ConfFile;
  CreateOverlayTmpfs_result : list Event -> string -> Z -> string * option error;
  DeleteOverlayTmpfs_result : list Event -> string -> string -> option error;
  ApplyOverlay_result : list Event -> string -> OverlaySet -> option error;
  UnmountOverlay_result : list Event -> string -> option error;
  filepath_Abs_result : list Event -> string -> string * option error
}.

Record World : Type := { trace : list Event }.

Definition record (ev : Event) (w : World) : World :=
  {| trace := trace w ++ [ev] |}.

(** Conversion of a [uint] to an [int] (both 64 bits wide). *)
Definition int_of_uint (n : Z) : Z :=
  let m := (n mod 2 ^ 64)%Z in
  if (m <? 2 ^ 63)%Z then m else (m - 2 ^ 64)%Z.

(** The state of the loop of [WrapWithOverlays] over the descriptions. *)
Record scan_state : Type := {
  writableOverlayFound : bool;
  ovs_of : OverlaySet
}.

(** [writable] as the loop body computes it for one description. *)
Definition writable_desc (p : string) : bool :=
  let splitted := SplitN_colon_2 p in
  if (1 <? List.length splitted)%nat then
    if String.eqb (nth 1 splitted "") "ro" then false else true
  else true.

(** The loop of [WrapWithOverlays]: it makes no call outside the file. *)
Fixpoint scan_overlays (overlayPaths : list string) (st : scan_state)
  : flow OverlaySet error :=
  match overlayPaths with
  | [] => Next (ovs_of st)
  | p :: rest =>
      let writable := writable_desc p in
      let splitted := SplitN_colon_2 p in
      let barePath := nth 0 splitted "" in
      let ovs := ovs_of st in
      if writable && writableOverlayFound st then
        Return (Errorf
          "you can't specify more than one writable overlay; %#v has already been specified as a writable overlay; use '--overlay %s:ro' instead"
          [ArgString (WritableLoc ovs); ArgString barePath])
      else if writable then
        scan_overlays rest
          {| writableOverlayFound := true;
             ovs_of := {| WritableLoc := barePath; ReadonlyLocs := ReadonlyLocs ovs |} |}
      else
        scan_overlays rest
          {| writableOverlayFound := writableOverlayFound st;
             ovs_of := {| WritableLoc := WritableLoc ovs;
                          ReadonlyLocs := ReadonlyLocs ovs ++ [barePath] |} |}
  end.

Section Code.
Variable env : Env.

Definition extern {A : Type} (ev : Event) (answer : list Event -> A) : M World A :=
  fun w => (answer (trace w), record ev w).

Definition sylog (lvl : level) (format : string) (args : list fmt_arg) : M World unit :=
  extern (EvLog lvl format args) (fun _ => tt).

Definition prepareWritableTmpfs (bundleDir : string) : M World (string * option error) :=
  sylog Debug "Configuring writable tmpfs overlay for %s" [ArgString bundleDir] ;;
  c <- extern EvGetCurrentConfig (GetCurrentConfig_result env) ;;
  match c with
  | None => ret ("", Some (Errorf "singularity configuration is not initialized" []))
  | Some c =>
      let size := int_of_uint (SessiondirMaxSize c) in
      extern (EvCreateOverlayTmpfs bundleDir size)
        (fun h => CreateOverlayTmpfs_result env h bundleDir size)
  end.

Definition cleanupWritableTmpfs (bundleDir overlayDir : string) : M World (option error) :=
  sylog Debug "Cleaning up writable tmpfs overlay for %s" [ArgString bundleDir] ;;
  extern (EvDeleteOverlayTmpfs bundleDir overlayDir)
    (fun h => DeleteOverlayTmpfs_result env h bundleDir overlayDir).

Definition WrapWithWritableTmpFs (f : M World (option error)) (bundleDir : string)
  : M World (option error) :=
  r <- prepareWritableTmpfs bundleDir ;;
  let (overlayDir, err) := r in
  match err with
  | Some _ => ret err
  | None =>
      err <- f ;;
      cleanupErr <- cleanupWritableTmpfs bundleDir overlayDir ;;
      match cleanupErr with
      | Some ce => sylog Error "While cleaning up writable tmpfs: %v" [ArgError ce]
      | None => ret tt
      end ;;
      ret err
  end.

Definition WrapWithOverlays (f : M World (option error)) (bundleDir : string)
    (overlayPaths : list string) : M World (option error) :=
  match scan_overlays overlayPaths
          {| writableOverlayFound := false;
             ovs_of := {| WritableLoc := ""; ReadonlyLocs := [] |} |} with
  | Return e => ret (Some e)
  | Next ovs =>
      let rootFsDir := RootFs_Path env bundleDir in
      err <- extern (EvApplyOverlay rootFsDir ovs)
               (fun h => ApplyOverlay_result env h rootFsDir ovs) ;;
      match err with
      | Some _ => ret err
      | None =>
          err <- f ;;
          cleanupErr <- extern (EvUnmountOverlay rootFsDir)
                          (fun h => UnmountOverlay_result env h rootFsDir) ;;
          match cleanupErr with
          | Some ce => sylog Error "While unmounting rootfs overlay: %v" [ArgError ce]
          | None => ret tt
          end ;;
          ret err
      end
  end.

Definition absOverlay (desc : string) : M World (string * option error) :=
  let splitted := SplitN_colon_2 desc in
  let barePath := nth 0 splitted "" in
  r <- extern (EvAbs barePath) (fun h => filepath_Abs_result env h barePath) ;;
  let (absBarePath, err) := r in
  match err with
  | Some _ => ret ("", err)
  | None =>
      let absDesc := absBarePath in
      let absDesc :=
        if (1 <? List.length splitted)%nat
        then (absDesc ++ ":" ++ nth 1 splitted "")%string
        else absDesc in
      ret (absDesc, None)
  end.
End Code.

(** ** Vocabulary of the properties *)

Definition add_events (l : list Event) (w : World) : World :=
  {| trace := trace w ++ l |}.

(** Some suffix of [p] is [:ro]: the description ends in [:ro]. *)
Fixpoint ends_in_ro (p : string) : bool :=
  match p with
  | EmptyString => false
  | String _ rest => String.eqb p ":ro" || ends_in_ro rest
  end.

(** The specification's reading of a writable description. *)
Definition writable_by_suffix (p : string) : bool := negb (ends_in_ro p).

Definition scan_start : scan_state :=
  {| writableOverlayFound := false;
     ovs_of := {| WritableLoc := ""; ReadonlyLocs := [] |} |}.

(** The path of a description, without its option. *)
Definition bare_path (p : string) : string := nth 0 (SplitN_colon_2 p) "".

(** The overlay set that a list of descriptions stands for: the bare path of
    the first writable description, and the bare paths of the read-only
    ones in their order. *)
Definition overlay_set_of (overlayPaths : list string) : OverlaySet :=
  {| WritableLoc := match filter writable_desc overlayPaths with
                    | p :: _ => bare_path p
                    | [] => ""
                    end;
     ReadonlyLocs := map bare_path
                       (filter (fun p => negb (writable_desc p)) overlayPaths) |}.

End OciOverlay.

(** * The overlay [Set] of [internal/pkg/util/fs/overlay] *)

Module Overlay.

(** Modelled from the spec: [Item] is declared in [overlay_item_linux.go],
    which is not among the modelled files; the test file reads [SourcePath]
    and the data model gives the item a writable flag. *)
Record Item : Type := {
  SourcePath : string;
  Writable : bool
}.

(** Modelled from the spec: [Set] is declared in [overlay_set_linux.go],
    which is not among the modelled files; the test file fills
    [ReadonlyOverlays] and [WritableOverlay]. *)
Record Set_ : Type := {
  ReadonlyOverlays : list Item;
  WritableOverlay : option Item
}.

(** The mounts: of one item, and of the composed overlay. *)
Inductive Event : Type :=
| EvMountItem (item : Item)
| EvMountOverlay (rootfsDir : string) (lower : list Item) (upper : option Item).

Record Env : Type := {
  mount_item_result : list Event -> Item -> option error;
  mount_overlay_result : list Event -> string -> option error
}.

Record World : Type := { trace : list Event }.

Definition record (ev : Event) (w : World) : World :=
  {| trace := trace w ++ [ev] |}.

(** All the items of a set: the read-only ones in order, then the writable
    one. *)
Definition items (s : Set_) : list Item :=
  ReadonlyOverlays s ++ match WritableOverlay s with Some i => [i] | None => [] end.

(** The first source path that occurs twice, if any. *)
Fixpoint duplicate (paths : list string) : option string :=
  match paths with
  | [] => None
  | p :: rest => if existsb (String.eqb p) rest then Some p else duplicate rest
  end.

Section Code.
Variable env : Env.

Definition extern {A : Type} (ev : Event) (answer : list Event -> A) : M World A :=
  fun w => (answer (trace w), record ev w).

Fixpoint mount_items (l : list Item) : M World (option error) :=
  match l with
  | [] => ret None
  | i :: rest =>
      err <- extern (EvMountItem i) (fun h => mount_item_result env h i) ;;
      match err with
      | Some _ => ret err
      | None => mount_items rest
      end
  end.

(** Modelled from the spec: [Set.Mount] is in [overlay_set_linux.go], which
    is not among the modelled files.  It validates (a) that no two items
    share a resolved [SourcePath], across read-only and writable items, and
    (b) that at most one item is writable; on a validation failure it
    returns an error and performs no mount; otherwise it mounts the
    read-only items bottom to top, then the writable item, and composes
    one overlay mount at [rootfsDir]. *)
Definition Mount (s : Set_) (rootfsDir : string) : M World (option error) :=
  match duplicate (map SourcePath (items s)) with
  | Some p => ret (Some (Errorf "duplicate overlay source: %s" [ArgString p]))
  | None =>
      if (1 <? List.length (filter Writable (items s)))%nat then
        ret (Some (Errorf "more than one writable overlay" []))
      else
        err <- mount_items (items s) ;;
        match err with
        | Some _ => ret err
        | None =>
            extern (EvMountOverlay rootfsDir (ReadonlyOverlays s) (WritableOverlay s))
              (fun h => mount_overlay_result env h rootfsDir)
        end
  end.
End Code.

End Overlay.


(** * Transport options and image references of [ociimage] *)

Module OciImage.

(** The structs of the libraries that the file fills and reads.  Only the
    fields that the file names are spelled out; [other] stands for the
    remaining fields of the struct, which a composite literal of the file
    leaves at their zero value and which the file never reads. *)

Module authn.
Record AuthConfig (Other : Type) : Type := {
  Username : string;
  Password : string;
  IdentityToken : string;
  other : Other
}.
Arguments Build_AuthConfig {Other} _ _ _ _.
Arguments Username {Other} _.
Arguments Password {Other} _.
Arguments IdentityToken {Other} _.
Arguments other {Other} _.
End authn.

Module v1.
Record Platform (Other : Type) : Type := {
  OS : string;
  Architecture : string;
  Variant : string;
  other : Other
}.
Arguments Build_Platform {Other} _ _ _ _.
Arguments OS {Other} _.
Arguments Architecture {Other} _.
Arguments Variant {Other} _.
Arguments other {Other} _.
End v1.

Module types.
(** [types.OptionalBool]: its zero value is [OptionalBoolUndefined]. *)
Inductive OptionalBool : Type :=
| OptionalBoolUndefined
| OptionalBoolTrue
| OptionalBoolFalse.

(** [types.NewOptionalBool], of containers/image. *)
Definition NewOptionalBool (b : bool) : OptionalBool :=
  if b then OptionalBoolTrue else OptionalBoolFalse.

Definition OptionalBool_eqb (a b : OptionalBool) : bool :=
  match a, b with
  | OptionalBoolUndefined, OptionalBoolUndefined => true
  | OptionalBoolTrue, OptionalBoolTrue => true
  | OptionalBoolFalse, OptionalBoolFalse => true
  | _, _ => false
  end.

Record DockerAuthConfig (Other : Type) : Type := {
  Username : string;
  Password : string;
  IdentityToken : string;
  other : Other
}.
Arguments Build_DockerAuthConfig {Other} _ _ _ _.
Arguments Username {Other} _.
Arguments Password {Other} _.
Arguments IdentityToken {Other} _.
Arguments other {Other} _.

(** [types.SystemContext]; the field [DockerAuthConfig] is a pointer, nil
    being [None], and is written [DockerAuthConfig_] beside the struct of
    that name. *)
Record SystemContext (D C : Type) : Type := {
  AuthFilePath : string;
  BigFilesTemporaryDir : string;
  DockerRegistryUserAgent : string;
  OSChoice : string;
  ArchitectureChoice : string;
  VariantChoice : string;
  DockerAuthConfig_ : option (DockerAuthConfig D);
  DockerInsecureSkipTLSVerify : OptionalBool;
  DockerDaemonInsecureSkipTLSVerify : bool;
  OCIInsecureSkipTLSVerify : bool;
  rest : C
}.
Arguments Build_SystemContext {D C} _ _ _ _ _ _ _ _ _ _ _.
Arguments AuthFilePath {D C} _.
Arguments BigFilesTemporaryDir {D C} _.
Arguments DockerRegistryUserAgent {D C} _.
Arguments OSChoice {D C} _.
Arguments ArchitectureChoice {D C} _.
Arguments VariantChoice {D C} _.
Arguments DockerAuthConfig_ {D C} _.
Arguments DockerInsecureSkipTLSVerify {D C} _.
Arguments DockerDaemonInsecureSkipTLSVerify {D C} _.
Arguments OCIInsecureSkipTLSVerify {D C} _.
Arguments rest {D C} _.
End types.

(** [TransportOptions]; [AuthConfig] is a pointer, nil being [None]. *)
Record TransportOptions (A P : Type) : Type := {
  AuthConfig : option (authn.AuthConfig A);
  AuthFilePath : string;
  Insecure : bool;
  DockerDaemonHost : string;
  Platform : v1.Platform P;
  UserAgent : string;
  TmpDir : string
}.
Arguments Build_TransportOptions {A P} _ _ _ _ _ _ _.
Arguments AuthConfig {A P} _.
Arguments AuthFilePath {A P} _.
Arguments Insecure {A P} _.
Arguments DockerDaemonHost {A P} _.
Arguments Platform {A P} _.
Arguments UserAgent {A P} _.
Arguments TmpDir {A P} _.

(** What one of the [ParseReference] functions of containers/image returns:
    the reference, nil being [None], and the error. *)
Definition parsed (ImageReference : Type) : Type :=
  (option ImageReference * option error)%type.

(** The five [ParseReference] functions that the file calls. *)
Record Env (ImageReference : Type) : Type := {
  docker_ParseReference : string -> parsed ImageReference;
  dockerarchive_ParseReference : string -> parsed ImageReference;
  dockerdaemon_ParseReference : string -> parsed ImageReference;
  ocilayout_ParseReference : string -> parsed ImageReference;
  ociarchive_ParseReference : string -> parsed ImageReference
}.
Arguments docker_ParseReference {ImageReference} _ _.
Arguments dockerarchive_ParseReference {ImageReference} _ _.
Arguments dockerdaemon_ParseReference {ImageReference} _ _.
Arguments ocilayout_ParseReference {ImageReference} _ _.
Arguments ociarchive_ParseReference {ImageReference} _ _.

Section Code.
Context {A P D C : Type}.
(** The zero values of the fields that are not spelled out. *)
Variables (zeroA : A) (zeroP : P) (zeroD : D) (zeroC : C).

(** The assignment [sc.DockerAuthConfig = v]. *)
Definition set_DockerAuthConfig (sc : types.SystemContext D C)
    (v : option (types.DockerAuthConfig D)) : types.SystemContext D C :=
  {| types.AuthFilePath := types.AuthFilePath sc;
     types.BigFilesTemporaryDir := types.BigFilesTemporaryDir sc;
     types.DockerRegistryUserAgent := types.DockerRegistryUserAgent sc;
     types.OSChoice := types.OSChoice sc;
     types.ArchitectureChoice := types.ArchitectureChoice sc;
     types.VariantChoice := types.VariantChoice sc;
     types.DockerAuthConfig_ := v;
     types.DockerInsecureSkipTLSVerify := types.DockerInsecureSkipTLSVerify sc;
     types.DockerDaemonInsecureSkipTLSVerify := types.DockerDaemonInsecureSkipTLSVerify sc;
     types.OCIInsecureSkipTLSVerify := types.OCIInsecureSkipTLSVerify sc;
     types.rest := types.rest sc |}.

(** The three assignments under [if t.Insecure]. *)
Definition set_insecure (sc : types.SystemContext D C) (docker : types.OptionalBool)
    (daemon oci : bool) : types.SystemContext D C :=
  {| types.AuthFilePath := types.AuthFilePath sc;
     types.BigFilesTemporaryDir := types.BigFilesTemporaryDir sc;
     types.DockerRegistryUserAgent := types.DockerRegistryUserAgent sc;
     types.OSChoice := types.OSChoice sc;
     types.ArchitectureChoice := types.ArchitectureChoice sc;
     types.VariantChoice := types.VariantChoice sc;
     types.DockerAuthConfig_ := types.DockerAuthConfig_ sc;
     types.DockerInsecureSkipTLSVerify := docker;
     types.DockerDaemonInsecureSkipTLSVerify := daemon;
     types.OCIInsecureSkipTLSVerify := oci;
     types.rest := types.rest sc |}.

(** The method [SystemContext] of [TransportOptions], on the struct that
    the receiver points to. *)
Definition SystemContext (t : TransportOptions A P) : types.SystemContext D C :=
  let sc :=
    {| types.AuthFilePath := AuthFilePath t;
       types.BigFilesTemporaryDir := TmpDir t;
       types.DockerRegistryUserAgent := UserAgent t;
       types.OSChoice := v1.OS (Platform t);
       types.ArchitectureChoice := v1.Architecture (Platform t);
       types.VariantChoice := v1.Variant (Platform t);
       types.DockerAuthConfig_ := None;
       types.DockerInsecureSkipTLSVerify := types.OptionalBoolUndefined;
       types.DockerDaemonInsecureSkipTLSVerify := false;
       types.OCIInsecureSkipTLSVerify := false;
       types.rest := zeroC |} in
  let sc :=
    match AuthConfig t with
    | Some a =>
        set_DockerAuthConfig sc
          (Some {| types.Username := authn.Username a;
                   types.Password := authn.Password a;
                   types.IdentityToken := authn.IdentityToken a;
                   types.other := zeroD |})
    | None => sc
    end in
  let sc :=
    if Insecure t
    then set_insecure sc (types.NewOptionalBool true) true true
    else sc in
  sc.

(** [TransportOptionsFromSystemContext]. *)
Definition TransportOptionsFromSystemContext (sc : types.SystemContext D C)
    : TransportOptions A P :=
  let to :=
    {| AuthConfig := None;
       AuthFilePath := types.AuthFilePath sc;
       Insecure :=
         types.OptionalBool_eqb (types.DockerInsecureSkipTLSVerify sc) types.OptionalBoolTrue
         || types.DockerDaemonInsecureSkipTLSVerify sc
         || types.OCIInsecureSkipTLSVerify sc;
       DockerDaemonHost := "";
       Platform := {| v1.OS := types.OSChoice sc;
                      v1.Architecture := types.ArchitectureChoice sc;
                      v1.Variant := types.VariantChoice sc;
                      v1.other := zeroP |};
       UserAgent := types.DockerRegistryUserAgent sc;
       TmpDir := types.BigFilesTemporaryDir sc |} in
  match types.DockerAuthConfig_ sc with
  | Some d =>
      {| AuthConfig := Some {| authn.Username := types.Username d;
                               authn.Password := types.Password d;
                               authn.IdentityToken := types.IdentityToken d;
                               authn.other := zeroA |};
         AuthFilePath := AuthFilePath to;
         Insecure := Insecure to;
         DockerDaemonHost := DockerDaemonHost to;
         Platform := Platform to;
         UserAgent := UserAgent to;
         TmpDir := TmpDir to |}
  | None => to
  end.

(** What the two conversions can carry of the options: the daemon host and
    the fields of the credentials and of the platform that are not spelled
    out are at their zero value. *)
Definition carried (t : TransportOptions A P) : TransportOptions A P :=
  {| AuthConfig :=
       match AuthConfig t with
       | Some a => Some {| authn.Username := authn.Username a;
                           authn.Password := authn.Password a;
                           authn.IdentityToken := authn.IdentityToken a;
                           authn.other := zeroA |}
       | None => None
       end;
     AuthFilePath := AuthFilePath t;
     Insecure := Insecure t;
     DockerDaemonHost := "";
     Platform := {| v1.OS := v1.OS (Platform t);
                    v1.Architecture := v1.Architecture (Platform t);
                    v1.Variant := v1.Variant (Platform t);
                    v1.other := zeroP |};
     UserAgent := UserAgent t;
     TmpDir := TmpDir t |}.

(** One of the three insecure settings of a context is switched on. *)
Definition any_insecure (sc : types.SystemContext D C) : bool :=
  types.OptionalBool_eqb (types.DockerInsecureSkipTLSVerify sc) types.OptionalBoolTrue
  || types.DockerDaemonInsecureSkipTLSVerify sc
  || types.OCIInsecureSkipTLSVerify sc.
End Code.

Section Refs.
Context {ImageReference : Type}.
Variable env : Env ImageReference.

(** The [switch parts[0]] of [ParseImageRef]: the parser of a transport,
    [None] in the [default] case. *)
Definition transport_parser (transport : string)
    : option (string -> parsed ImageReference) :=
  if String.eqb transport "docker" then Some (docker_ParseReference env)
  else if String.eqb transport "docker-archive" then Some (dockerarchive_ParseReference env)
  else if String.eqb transport "docker-daemon" then Some (dockerdaemon_ParseReference env)
  else if String.eqb transport "oci" then Some (ocilayout_ParseReference env)
  else if String.eqb transport "oci-archive" then Some (ociarchive_ParseReference env)
  else None.

(** [ParseImageRef]. *)
Definition ParseImageRef (imageRef : string) : parsed ImageReference :=
  let parts := SplitN_colon_2 imageRef in
  if (List.length parts <? 2)%nat then
    (None, Some (Errorf "could not parse image ref: %s" [ArgString imageRef]))
  else
    match transport_parser (nth 0 parts "") with
    | None =>
        (None, Some (Errorf "cannot create an OCI container from %s source"
                       [ArgString (nth 0 parts "")]))
    | Some ParseReference =>
        let (srcRef, err) := ParseReference (nth 1 parts "") in
        match err with
        | Some e => (None, Some (Errorf "invalid image source: %v" [ArgError e]))
        | None => (srcRef, None)
        end
    end.

(** The [switch parts[0]] of [parseRef] in [e2e/internal/e2e/image.go]. *)
Definition e2e_transport_parser (transport : string)
    : option (string -> parsed ImageReference) :=
  if String.eqb transport "docker" then Some (docker_ParseReference env)
  else if String.eqb transport "docker-archive" then Some (dockerarchive_ParseReference env)
  else if String.eqb transport "oci" then Some (ocilayout_ParseReference env)
  else if String.eqb transport "oci-archive" then Some (ociarchive_ParseReference env)
  else None.

(** [parseRef] of [e2e/internal/e2e/image.go]. *)
Definition parseRef (refString : string) : parsed ImageReference :=
  let parts := SplitN_colon_2 refString in
  if (List.length parts <? 2)%nat then
    (None, Some (Errorf "could not parse image ref: %s" [ArgString refString]))
  else
    match e2e_transport_parser (nth 0 parts "") with
    | None =>
        (None, Some (Errorf "cannot create an OCI container from %s source"
                       [ArgString (nth 0 parts "")]))
    | Some ParseReference => ParseReference (nth 1 parts "")
    end.
End Refs.

(** The transports that [ParseImageRef] knows. *)
Definition transports : list string :=
  ["docker"; "docker-archive"; "docker-daemon"; "oci"; "oci-archive"].

End OciImage.


(** * Concrete environments used by the examples *)

Module CleanupFixtures.
Import Cleanup.

(** The number of [unmount(2)] calls in a history. *)
Fixpoint unmount_calls (h : list Event) : nat :=
  match h with
  | EvUnmount _ _ :: h' => S (unmount_calls h')
  | _ :: h' => unmount_calls h'
  | [] => 0
  end.

(** The number of capability changes in a history. *)
Fixpoint capset_calls (h : list Event) : nat :=
  match h with
  | EvSetProcessEffective _ :: h' => S (capset_calls h')
  | _ :: h' => capset_calls h'
  | [] => 0
  end.

(** Every call succeeds; the caller is an ordinary user. *)
Definition quiet : Env := {|
  CAP_SYS_ADMIN_Value := 21;
  fakerootConfig_Name := "fakeroot";
  instance_SingSubDir := "sing";
  sys_Unmount := fun _ _ _ => None;
  capset_error := fun _ _ => None;
  os_Getuid := fun _ => 1000%Z;
  os_Geteuid := fun _ => 1000%Z;
  bin_FindBin_result := fun _ name => inl ("/usr/bin/" ++ name)%string;
  starter_Run_result := fun _ _ => None;
  os_RemoveAll_result := fun _ _ => None;
  DelNetworks_result := fun _ => None;
  cgroups_Destroy_result := fun _ => None;
  CloseCryptDevice_result := fun _ _ => None;
  instance_Get_result := fun _ name sub => inl {| Path := (sub ++ "/" ++ name)%string |};
  file_Delete_result := fun _ _ => None
|}.

Definition with_unmount (f : list Event -> string -> Z -> option Z) (e : Env) : Env := {|
  CAP_SYS_ADMIN_Value := CAP_SYS_ADMIN_Value e;
  fakerootConfig_Name := fakerootConfig_Name e;
  instance_SingSubDir := instance_SingSubDir e;
  sys_Unmount := f;
  capset_error := capset_error e;
  os_Getuid := os_Getuid e;
  os_Geteuid := os_Geteuid e;
  bin_FindBin_result := bin_FindBin_result e;
  starter_Run_result := starter_Run_result e;
  os_RemoveAll_result := os_RemoveAll_result e;
  DelNetworks_result := DelNetworks_result e;
  cgroups_Destroy_result := cgroups_Destroy_result e;
  CloseCryptDevice_result := CloseCryptDevice_result e;
  instance_Get_result := instance_Get_result e;
  file_Delete_result := file_Delete_result e
|}.

Definition with_capset (f : list Event -> Z -> option error) (e : Env) : Env := {|
  CAP_SYS_ADMIN_Value := CAP_SYS_ADMIN_Value e;
  fakerootConfig_Name := fakerootConfig_Name e;
  instance_SingSubDir := instance_SingSubDir e;
  sys_Unmount := sys_Unmount e;
  capset_error := f;
  os_Getuid := os_Getuid e;
  os_Geteuid := os_Geteuid e;
  bin_FindBin_result := bin_FindBin_result e;
  starter_Run_result := starter_Run_result e;
  os_RemoveAll_result := os_RemoveAll_result e;
  DelNetworks_result := DelNetworks_result e;
  cgroups_Destroy_result := cgroups_Destroy_result e;
  CloseCryptDevice_result := CloseCryptDevice_result e;
  instance_Get_result := instance_Get_result e;
  file_Delete_result := file_Delete_result e
|}.

(** [unmount(2)] answers "device busy" to the first [n] calls, then succeeds. *)
Definition busy_then_ok (n : nat) : Env :=
  with_unmount (fun h _ _ => if (unmount_calls h <? n)%nat then Some EBUSY else None) quiet.

(** [unmount(2)] always answers with the given errno. *)
Definition always_errno (errno : Z) : Env :=
  with_unmount (fun _ _ _ => Some errno) quiet.

(** [target] is not a mount point; every other unmount succeeds. *)
Definition not_mounted (target : string) : Env :=
  with_unmount (fun _ p _ => if String.eqb p target then Some EINVAL else None) quiet.

(** The second capability change (the restore) fails. *)
Definition restore_fails (e : Env) : Env :=
  with_capset (fun h _ => if (capset_calls h =? 1)%nat
                          then Some (ErrorString "capset: operation not permitted")
                          else None) e.

(** The first capability change (the raise) fails. *)
Definition raise_fails (e : Env) : Env :=
  with_capset (fun h _ => if (capset_calls h =? 0)%nat
                          then Some (ErrorString "capset: operation not permitted")
                          else None) e.

Definition one_point : Globals := {|
  umountPoints := ["/mnt"];
  networkSetup := None;
  cgroupsManager := None;
  cryptDev := ""
|}.

Definition three_points : Globals := {|
  umountPoints := ["/a"; "/b"; "/c"];
  networkSetup := None;
  cgroupsManager := None;
  cryptDev := ""
|}.

Definition everything_set_up : Globals := {|
  umountPoints := ["/a"; "/b"];
  networkSetup := Some tt;
  cgroupsManager := Some tt;
  cryptDev := "/dev/mapper/crypt0"
|}.

Definition start : World := {| trace := []; effective := 0 |}.

(** Every call that can fail does, except the capability changes and the
    lookup of the instance file. *)
Definition everything_fails : Env := {|
  CAP_SYS_ADMIN_Value := 21;
  fakerootConfig_Name := "fakeroot";
  instance_SingSubDir := "sing";
  sys_Unmount := fun _ _ _ => Some 1%Z;
  capset_error := fun _ _ => None;
  os_Getuid := fun _ => 1000%Z;
  os_Geteuid := fun _ => 1000%Z;
  bin_FindBin_result := fun _ name => inl ("/usr/bin/" ++ name)%string;
  starter_Run_result := fun _ _ => Some (ErrorString "exit status 1");
  os_RemoveAll_result := fun _ _ => Some (ErrorString "permission denied");
  DelNetworks_result := fun _ => Some (ErrorString "no such network");
  cgroups_Destroy_result := fun _ => Some (ErrorString "cgroup busy");
  CloseCryptDevice_result := fun _ _ => Some (ErrorString "device busy");
  instance_Get_result := fun _ name sub => inl {| Path := (sub ++ "/" ++ name)%string |};
  file_Delete_result := fun _ _ => Some (ErrorString "unlink: permission denied")
|}.

(** No [rm] is to be found on the host. *)
Definition no_rm : Env := {|
  CAP_SYS_ADMIN_Value := 21;
  fakerootConfig_Name := "fakeroot";
  instance_SingSubDir := "sing";
  sys_Unmount := fun _ _ _ => None;
  capset_error := fun _ _ => None;
  os_Getuid := fun _ => 1000%Z;
  os_Geteuid := fun _ => 1000%Z;
  bin_FindBin_result := fun _ name => inr (ErrorString "rm: executable not found");
  starter_Run_result := fun _ _ => None;
  os_RemoveAll_result := fun _ _ => None;
  DelNetworks_result := fun _ => None;
  cgroups_Destroy_result := fun _ => None;
  CloseCryptDevice_result := fun _ _ => None;
  instance_Get_result := fun _ name sub => inl {| Path := (sub ++ "/" ++ name)%string |};
  file_Delete_result := fun _ _ => None
|}.

(** A named instance run under fakeroot from an extracted image, with a
    bridge network. *)
Definition fakeroot_instance : EngineOperations := {|
  engineConfig := {| GetImageFuse := false;
                     GetDeleteTempDir := "/tmp/rootfs-123";
                     GetFakeroot := true;
                     GetNetwork := "bridge";
                     GetInstance := true |};
  commonConfig := {| ContainerID := "web" |}
|}.

(** The error and warning lines of a trace. *)
Fixpoint complaints (h : list Event) : list string :=
  match h with
  | EvLog Error format _ :: h' => format :: complaints h'
  | EvLog Warning format _ :: h' => format :: complaints h'
  | _ :: h' => complaints h'
  | [] => []
  end.

End CleanupFixtures.

Module StarterFixtures.
Import Starter.

(** An environment in which every call succeeds and the stage functions end
    the process with status 0. *)
Definition healthy (sel : goexec) : Env := {|
  goexecute := sel;
  master_socket := (3%Z, 4%Z);
  rpc_socket := (5%Z, 6%Z);
  cleanup_socket := (7%Z, 8%Z);
  GetJSONConfig_result := fun _ => "{}";
  engine_Get_result := fun _ _ => inl {| EngineName := "singularity" |};
  GetContainerPid_result := fun _ => 4242%Z;
  GetImageFd_result := fun _ => 9%Z;
  Release_result := fun _ => None;
  stage_exit := fun _ _ => Some 0%Z
|}.

(** The release of the shared configuration fails. *)
Definition release_fails (sel : goexec) : Env := {|
  goexecute := sel;
  master_socket := (3%Z, 4%Z);
  rpc_socket := (5%Z, 6%Z);
  cleanup_socket := (7%Z, 8%Z);
  GetJSONConfig_result := fun _ => "{}";
  engine_Get_result := fun _ _ => inl {| EngineName := "singularity" |};
  GetContainerPid_result := fun _ => 4242%Z;
  GetImageFd_result := fun _ => 9%Z;
  Release_result := fun _ => Some (ErrorString "munmap: invalid argument");
  stage_exit := fun _ _ => Some 0%Z
|}.

Definition start : World := {| trace := [] |}.

End StarterFixtures.

Module OciOverlayFixtures.
Import OciOverlay.

(** Preparation succeeds; both cleanups fail. *)
Definition cleanup_fails : Env := {|
  RootFs_Path := fun bundleDir => (bundleDir ++ "/rootfs")%string;
  GetCurrentConfig_result := fun _ => Some {| SessiondirMaxSize := 64 |};
  CreateOverlayTmpfs_result := fun _ bundleDir _ => ((bundleDir ++ "/overlay")%string, None);
  DeleteOverlayTmpfs_result := fun _ _ _ => Some (ErrorString "device or resource busy");
  ApplyOverlay_result := fun _ _ _ => None;
  UnmountOverlay_result := fun _ _ => Some (ErrorString "device or resource busy");
  filepath_Abs_result := fun _ path => (("/cwd/" ++ path)%string, None)
|}.

(** The configuration is not initialised. *)
Definition no_configuration : Env := {|
  RootFs_Path := fun bundleDir => (bundleDir ++ "/rootfs")%string;
  GetCurrentConfig_result := fun _ => None;
  CreateOverlayTmpfs_result := fun _ bundleDir _ => ((bundleDir ++ "/overlay")%string, None);
  DeleteOverlayTmpfs_result := fun _ _ _ => None;
  ApplyOverlay_result := fun _ _ _ => None;
  UnmountOverlay_result := fun _ _ => None;
  filepath_Abs_result := fun _ path => (("/cwd/" ++ path)%string, None)
|}.

(** The tmpfs overlay cannot be created and the overlay cannot be applied. *)
Definition preparation_fails : Env := {|
  RootFs_Path := fun bundleDir => (bundleDir ++ "/rootfs")%string;
  GetCurrentConfig_result := fun _ => Some {| SessiondirMaxSize := 64 |};
  CreateOverlayTmpfs_result := fun _ _ _ => ("", Some (ErrorString "no space left on device"));
  DeleteOverlayTmpfs_result := fun _ _ _ => None;
  ApplyOverlay_result := fun _ _ _ => Some (ErrorString "overlay: permission denied");
  UnmountOverlay_result := fun _ _ => None;
  filepath_Abs_result := fun _ path => (("/cwd/" ++ path)%string, None)
|}.

(** A container payload that fails. *)
Definition failing_payload : M World (option error) :=
  fun w => (Some (ErrorString "exit status 3"), record (EvPayload "run") w).

Definition start : World := {| trace := [] |}.

End OciOverlayFixtures.

Module OverlayFixtures.
Import Overlay.

Definition mounts_work : Env := {|
  mount_item_result := fun _ _ => None;
  mount_overlay_result := fun _ _ => None
|}.

Definition ro (path : string) : Item := {| SourcePath := path; Writable := false |}.

(** The set of [TestDuplicateItemsInSet]: five read-only directories, the
    fourth being the second once more. *)
Definition duplicate_readonly : Set_ := {|
  ReadonlyOverlays := [ro "/tmp/d1"; ro "/tmp/d2"; ro "/tmp/d3"; ro "/tmp/d2"; ro "/tmp/d5"];
  WritableOverlay := None
|}.

(** The same set with a writable directory on top. *)
Definition duplicate_with_writable : Set_ := {|
  ReadonlyOverlays := ReadonlyOverlays duplicate_readonly;
  WritableOverlay := Some {| SourcePath := "/tmp/rw"; Writable := true |}
|}.

(** A read-only directory that is also the writable one. *)
Definition readonly_is_writable : Set_ := {|
  ReadonlyOverlays := [ro "/tmp/d1"; ro "/tmp/d2"];
  WritableOverlay := Some {| SourcePath := "/tmp/d1"; Writable := true |}
|}.

Definition start : World := {| trace := [] |}.

End OverlayFixtures.


Module OciImageFixtures.
Import OciImage.

(** Parsers that take every reference but the empty one; the reference is
    kept as the transport and the text handed over. *)
Definition parse_as (transport : string) (ref : string) : parsed (string * string) :=
  if String.eqb ref "" then (None, Some (ErrorString "empty reference"))
  else (Some (transport, ref), None).

Definition parsers : Env (string * string) := {|
  docker_ParseReference := parse_as "docker";
  dockerarchive_ParseReference := parse_as "docker-archive";
  dockerdaemon_ParseReference := parse_as "docker-daemon";
  ocilayout_ParseReference := parse_as "oci";
  ociarchive_ParseReference := parse_as "oci-archive"
|}.

(** Options without a daemon host; the fields that are not spelled out are
    modelled by [unit]. *)
Definition registry_options : TransportOptions unit unit := {|
  AuthConfig := Some {| authn.Username := "user"; authn.Password := "secret";
                        authn.IdentityToken := ""; authn.other := tt |};
  AuthFilePath := "/home/user/.singularity/docker-config.json";
  Insecure := true;
  DockerDaemonHost := "";
  Platform := {| v1.OS := "linux"; v1.Architecture := "arm64"; v1.Variant := "v8";
                 v1.other := tt |};
  UserAgent := "Singularity";
  TmpDir := "/tmp"
|}.

(** A context that skips the verification for OCI layouts only. *)
Definition oci_insecure_only : types.SystemContext unit unit := {|
  types.AuthFilePath := "";
  types.BigFilesTemporaryDir := "";
  types.DockerRegistryUserAgent := "";
  types.OSChoice := "linux";
  types.ArchitectureChoice := "amd64";
  types.VariantChoice := "";
  types.DockerAuthConfig_ := None;
  types.DockerInsecureSkipTLSVerify := types.OptionalBoolFalse;
  types.DockerDaemonInsecureSkipTLSVerify := false;
  types.OCIInsecureSkipTLSVerify := true;
  types.rest := tt
|}.

End OciImageFixtures.


(** * Properties of [umount] and [CleanupContainer] *)

Module StringFacts.

Example filepath_Base_device : filepath_Base "/dev/mapper/crypt0" = "crypt0".
Proof. reflexivity. Qed.

Example filepath_Base_trailing_slash : filepath_Base "/var/tmp/" = "tmp".
Proof. reflexivity. Qed.

Example filepath_Base_slashes : filepath_Base "///" = "/".
Proof. reflexivity. Qed.

Example filepath_Base_empty : filepath_Base "" = ".".
Proof. reflexivity. Qed.

Example SplitN_ro : SplitN_colon_2 "/data/a:ro" = ["/data/a"; "ro"].
Proof. reflexivity. Qed.

Example SplitN_two_colons : SplitN_colon_2 "a:b:ro" = ["a"; "b:ro"].
Proof. reflexivity. Qed.

Example SplitN_plain : SplitN_colon_2 "/data/a" = ["/data/a"].
Proof. reflexivity. Qed.

Example SplitN_empty : SplitN_colon_2 "" = [""].
Proof. reflexivity. Qed.

(** The two pieces of [SplitN] put the description together again. *)
Lemma cut_colon_join (s : string) :
  match cut_colon s with
  | (a, Some b) => s = (a ++ ":" ++ b)%string
  | (a, None) => s = a
  end.
Proof.
  induction s as [|c rest IH]; [reflexivity|]. cbn [cut_colon].
  destruct (Ascii.eqb_spec c ":"%char) as [->|Hc]; [reflexivity|].
  destruct (cut_colon rest) as [a [b|]]; cbn [String.append]; now f_equal.
Qed.

Lemma cut_colon_plain (a : string) : no_colon a = true -> cut_colon a = (a, None).
Proof.
  induction a as [|c a IH]; [reflexivity|]. cbn [no_colon cut_colon].
  destruct (Ascii.eqb c ":"%char); [discriminate|]. cbn [negb andb].
  intros H. now rewrite (IH H).
Qed.

Lemma cut_colon_String (a b : string) :
  no_colon a = true -> cut_colon (a ++ String ":"%char b) = (a, Some b).
Proof.
  induction a as [|c a IH]; [reflexivity|]. cbn [no_colon cut_colon String.append].
  destruct (Ascii.eqb c ":"%char); [discriminate|]. cbn [negb andb].
  intros H. now rewrite (IH H).
Qed.

Lemma cut_colon_append (a b : string) :
  no_colon a = true -> cut_colon (a ++ ":" ++ b) = (a, Some b).
Proof. exact (cut_colon_String a b). Qed.

(** The piece before the cut holds no colon. *)
Lemma cut_colon_no_colon (s : string) : no_colon (fst (cut_colon s)) = true.
Proof.
  induction s as [|c rest IH]; [reflexivity|]. cbn [cut_colon].
  destruct (Ascii.eqb c ":"%char) eqn:Hc; [reflexivity|].
  destruct (cut_colon rest) as [a b]. cbn [fst no_colon] in *.
  now rewrite Hc, IH.
Qed.

End StringFacts.

Module CleanupFacts.
Import Cleanup.

Section Retry.
Variable env : Env.

Lemma add_events_nil (w : World) : add_events [] w = w.
Proof. destruct w; unfold add_events; simpl; now rewrite app_nil_r. Qed.

Lemma add_events_app (l1 l2 : list Event) (w : World) :
  add_events l2 (add_events l1 w) = add_events (l1 ++ l2) w.
Proof. unfold add_events; simpl; now rewrite app_assoc. Qed.

Lemma trace_add_events (l : list Event) (w : World) :
  trace (add_events l w) = trace w ++ l.
Proof. reflexivity. Qed.

Lemma record_add_events (ev : Event) (w : World) : record ev w = add_events [ev] w.
Proof. reflexivity. Qed.

Lemma repeat_snoc {A : Type} (x : A) (n : nat) : repeat x n ++ [x] = x :: repeat x n.
Proof. induction n; simpl; [reflexivity | now rewrite IHn]. Qed.

Lemma leading_unmounts_repeat (p : string) (f : Z) (n : nat) (l : list Event) :
  leading_unmounts (repeat (EvUnmount p f) n ++ l) = n + leading_unmounts l.
Proof. induction n; simpl; [reflexivity | now rewrite IHn]. Qed.

Lemma trailing_unmounts_repeat (h : list Event) (p : string) (f : Z) (n : nat) :
  trailing_unmounts (h ++ repeat (EvUnmount p f) n) = n + trailing_unmounts h.
Proof.
  unfold trailing_unmounts.
  rewrite rev_app_distr, rev_repeat.
  apply leading_unmounts_repeat.
Qed.

Lemma trailing_unmounts_log (h : list Event) (lvl : level) (fmt : string) (args : list fmt_arg) :
  trailing_unmounts (h ++ [EvLog lvl fmt args]) = 0.
Proof. unfold trailing_unmounts; now rewrite rev_app_distr. Qed.

(** One turn of the block under [retry:]. *)
Lemma unmount_retry_eq (fuel retries : nat) (p : string) (f : Z) (w : World) :
  unmount_retry env fuel retries p f w =
  let w1 := record (EvUnmount p f) w in
  match sys_Unmount env (trace w) p f with
  | Some errno =>
      if negb (errno =? EINVAL)%Z then
        if (errno =? EBUSY)%Z && (retries <? 10)%nat then
          match fuel with
          | S fuel' => unmount_retry env fuel' (S retries) p f w1
          | O => (Return (unmount_error p errno), w1)
          end
        else (Return (unmount_error p errno), w1)
      else (Next (Some (Errno errno)), w1)
  | None => (Next None, w1)
  end.
Proof.
  destruct fuel; simpl; unfold bind, syscall_Unmount, extern; simpl;
    destruct (sys_Unmount env (trace w) p f) as [errno|]; try reflexivity;
    destruct (negb (errno =? EINVAL)%Z); try reflexivity;
    destruct ((errno =? EBUSY)%Z && (retries <? 10)%nat); reflexivity.
Qed.

(** The fuel is only a device: any amount that covers the retries still
    allowed gives the same run. *)
Lemma unmount_retry_fuel (p : string) (f : Z) :
  forall (fuel fuel' retries : nat) (w : World),
    10 <= fuel + retries -> 10 <= fuel' + retries ->
    unmount_retry env fuel retries p f w = unmount_retry env fuel' retries p f w.
Proof.
  induction fuel as [|fuel IH]; intros fuel' retries w H H'.
  - rewrite !unmount_retry_eq; simpl.
    destruct (sys_Unmount env (trace w) p f) as [errno|]; [|reflexivity].
    destruct (negb (errno =? EINVAL)%Z); [|reflexivity].
    destruct (Nat.ltb_spec retries 10); [lia|].
    now rewrite andb_false_r.
  - rewrite (unmount_retry_eq (S fuel)), (unmount_retry_eq fuel'); simpl.
    destruct (sys_Unmount env (trace w) p f) as [errno|]; [|reflexivity].
    destruct (negb (errno =? EINVAL)%Z); [|reflexivity].
    destruct (Nat.ltb_spec retries 10).
    + destruct (errno =? EBUSY)%Z; simpl; [|reflexivity].
      destruct fuel' as [|fuel']; [lia|].
      apply IH; lia.
    + now rewrite andb_false_r.
Qed.

(** While the answer is "device busy" and retries are left, the block goes
    round. *)
Lemma unmount_retry_busy (p : string) (f : Z) :
  forall (k fuel retries : nat) (w : World),
    (forall j, j < k ->
       sys_Unmount env (trace w ++ repeat (EvUnmount p f) j) p f = Some EBUSY) ->
    retries + k <= 10 -> 10 <= fuel + retries ->
    unmount_retry env fuel retries p f w
    = unmount_retry env (fuel - k) (retries + k) p f
        (add_events (repeat (EvUnmount p f) k) w).
Proof.
  induction k as [|k IH]; intros fuel retries w Hbusy Hk Hfuel.
  - simpl. now rewrite add_events_nil, Nat.sub_0_r, Nat.add_0_r.
  - rewrite unmount_retry_eq.
    assert (H0 := Hbusy 0 ltac:(lia)). simpl in H0. rewrite app_nil_r in H0.
    rewrite H0. cbn -[unmount_retry Nat.ltb].
    destruct (Nat.ltb_spec retries 10); [|lia].
    destruct fuel as [|fuel]; [lia|].
    rewrite IH; try lia.
    + rewrite record_add_events, add_events_app. simpl.
      now replace (S (retries + k)) with (retries + S k) by lia.
    + intros j Hj. specialize (Hbusy (S j) ltac:(lia)).
      simpl. rewrite <- app_assoc. exact Hbusy.
Qed.

(** One turn of the loop over the registered points. *)
Lemma umount_loop_S (g : Globals) (i : nat) (f : Z) (err : option error) (w : World) :
  umount_loop env g (S i) f err w =
  let p := nth i (umountPoints g) "" in
  match unmount_retry env 10 0 p f (record (EvLog Debug "Umount %s" [ArgString p]) w) with
  | (Next err', w2) => umount_loop env g i f err' w2
  | (Return e, w2) => (Return e, w2)
  end.
Proof.
  cbn -[unmount_retry]. unfold bind, sylog, emit, extern. cbn -[unmount_retry].
  destruct (unmount_retry env 10 0 _ f _) as [[err'|e] w2]; reflexivity.
Qed.

(** C2 (as amended).  When [unmount(2)] answers "device busy" [k] times in
    a row on a registered point and then succeeds, with [k] at most 10, the
    loop goes on to the next point after exactly [k + 1] attempts (so at most
    10 attempts when [k] is below 10, and an eleventh attempt when [k] is 10);
    when it answers "device busy" 11 times in a row (the first attempt and
    the ten retries), the loop is left with the fatal error for that point
    after exactly 11 attempts. *)
Theorem umount_busy_retry_bound (g : Globals) (flags : Z) (err : option error)
    (i : nat) (w : World) (k : nat) :
  let p := nth i (umountPoints g) "" in
  let w1 := record (EvLog Debug "Umount %s" [ArgString p]) w in
  (forall j, j < k ->
     sys_Unmount env (trace w1 ++ repeat (EvUnmount p flags) j) p flags = Some EBUSY) ->
  (k <= 10 ->
   sys_Unmount env (trace w1 ++ repeat (EvUnmount p flags) k) p flags = None ->
   umount_loop env g (S i) flags err w
   = umount_loop env g i flags None
       (add_events (repeat (EvUnmount p flags) (S k)) w1))
  /\ (k = 11 ->
      umount_loop env g (S i) flags err w
      = (Return (unmount_error p EBUSY),
         add_events (repeat (EvUnmount p flags) 11) w1)).
Proof.
  intros p w1 Hbusy. split.
  - intros Hk Hok.
    rewrite umount_loop_S. cbv zeta. fold p. fold w1.
    rewrite (unmount_retry_busy p flags k 10 0 w1 Hbusy) by lia.
    rewrite unmount_retry_eq. cbv zeta.
    rewrite trace_add_events, Hok.
    rewrite record_add_events, add_events_app, repeat_snoc. reflexivity.
  - intros ->.
    rewrite umount_loop_S. cbv zeta. fold p. fold w1.
    rewrite (unmount_retry_busy p flags 10 10 0 w1) by (intros; try apply Hbusy; lia).
    rewrite unmount_retry_eq. cbv zeta.
    rewrite trace_add_events, (Hbusy 10) by lia.
    change (negb (EBUSY =? EINVAL)%Z) with true.
    change ((EBUSY =? EBUSY)%Z && (0 + 10 <? 10)%nat) with false. cbv iota.
    rewrite record_add_events, add_events_app, repeat_snoc. reflexivity.
Qed.

(** *** What the loop leaves in the trace *)

Lemma trailing_unmounts_snoc (h : list Event) (p : string) (f : Z) :
  trailing_unmounts (h ++ [EvUnmount p f]) = S (trailing_unmounts h).
Proof. exact (trailing_unmounts_repeat h p f 1). Qed.

Lemma split_repeat_app {A : Type} (x y : A) :
  forall (n : nat) (l a b : list A),
    repeat x n ++ l = a ++ y :: b ->
    (exists j, j < n /\ a = repeat x j /\ y = x /\ b = repeat x (n - S j) ++ l)
    \/ (exists a2, a = repeat x n ++ a2 /\ l = a2 ++ y :: b).
Proof.
  induction n as [|n IH]; intros l a b H; simpl in H.
  - right. exists a. split; [reflexivity | exact H].
  - destruct a as [|z a]; simpl in H; injection H as Hx H.
    + left. exists 0. subst.
      replace (S n - 1) with n by lia.
      repeat split; try reflexivity; lia.
    + subst z. destruct (IH l a b H) as [(j & Hj & Ha & Hy & Hb) | (a2 & Ha & Hl)].
      * left. exists (S j). subst a.
        replace (S n - S (S j)) with (n - S j) by lia.
        repeat split; try assumption; lia.
      * right. exists a2. subst a. split; [reflexivity | assumption].
Qed.

(** The block under [retry:] makes [k + 1] attempts on its point; none of
    the first [k] answers is fatal, and the block returns from [umount]
    exactly when the last answer is. *)
Lemma unmount_retry_spec (p : string) (f : Z) :
  forall (fuel retries : nat) (w : World),
    10 <= fuel + retries ->
    trailing_unmounts (trace w) = retries ->
    exists k,
      snd (unmount_retry env fuel retries p f w)
      = add_events (repeat (EvUnmount p f) (S k)) w
      /\ (forall j, j < k -> fatal env (trace w ++ repeat (EvUnmount p f) j) p f = None)
      /\ match fst (unmount_retry env fuel retries p f w) with
         | Return e =>
             exists errno,
               fatal env (trace w ++ repeat (EvUnmount p f) k) p f = Some errno
               /\ e = unmount_error p errno
         | Next err =>
             fatal env (trace w ++ repeat (EvUnmount p f) k) p f = None
             /\ err = option_map Errno
                        (sys_Unmount env (trace w ++ repeat (EvUnmount p f) k) p f)
         end.
Proof.
  induction fuel as [|fuel IH]; intros retries w Hfuel Htrail;
    rewrite unmount_retry_eq; cbv zeta; unfold fatal.
  - (* no fuel: ten retries are behind us *)
    exists 0. simpl repeat. rewrite app_nil_r, Htrail.
    destruct (sys_Unmount env (trace w) p f) as [errno|]; simpl.
    + destruct (Nat.ltb_spec retries 10); [lia|].
      rewrite andb_false_r. simpl.
      destruct (negb (errno =? EINVAL)%Z); simpl.
      * repeat split; [intros; lia | eauto].
      * repeat split; intros; lia.
    + repeat split; intros; lia.
  - destruct (sys_Unmount env (trace w) p f) as [errno|] eqn:Hans.
    + destruct (negb (errno =? EINVAL)%Z) eqn:Hinval.
      * destruct ((errno =? EBUSY)%Z && (retries <? 10)%nat) eqn:Hbusy.
        -- (* one more turn *)
           destruct (IH (S retries) (record (EvUnmount p f) w)) as (k & Hw & Hpre & Hlast).
           { lia. }
           { simpl. rewrite trailing_unmounts_snoc. now rewrite Htrail. }
           exists (S k).
           rewrite Hw, record_add_events, add_events_app.
           split; [reflexivity|]. split.
           ++ intros [|j] Hj.
              ** simpl. rewrite app_nil_r. unfold fatal.
                 now rewrite Hans, Hinval, Htrail, Hbusy.
              ** specialize (Hpre j ltac:(lia)). simpl in Hpre |- *.
                 now rewrite <- app_assoc in Hpre.
           ++ simpl in Hlast. rewrite <- app_assoc in Hlast. exact Hlast.
        -- exists 0. simpl repeat. rewrite app_nil_r, Hans, Hinval, Htrail, Hbusy. simpl.
           repeat split; [intros; lia | eauto].
      * exists 0. simpl repeat. rewrite app_nil_r, Hans, Hinval. simpl.
        repeat split; intros; lia.
    + exists 0. simpl repeat. rewrite app_nil_r, Hans. simpl.
      repeat split; intros; lia.
Qed.

(** The loop only logs and unmounts; it leaves the capabilities alone; and
    an attempt whose answer is fatal is its last event, the loop returning
    the error of that very point. *)
Lemma umount_loop_spec (g : Globals) (f : Z) :
  forall (n : nat) (err : option error) (w : World),
    exists new,
      snd (umount_loop env g n f err w) = add_events new w
      /\ forallb umount_inner new = true
      /\ (forall a p' f' b errno,
            new = a ++ EvUnmount p' f' :: b ->
            fatal env (trace w ++ a) p' f' = Some errno ->
            b = [] /\ fst (umount_loop env g n f err w) = Return (unmount_error p' errno)).
Proof.
  induction n as [|i IH]; intros err w.
  - exists []. simpl. rewrite add_events_nil.
    repeat split; try reflexivity; destruct a; discriminate.
  - rewrite umount_loop_S. cbv zeta.
    set (p := nth i (umountPoints g) "").
    set (lg := EvLog Debug "Umount %s" [ArgString p]).
    destruct (unmount_retry_spec p f 10 0 (record lg w)) as (k & Hw & Hpre & Hlast).
    { lia. }
    { apply trailing_unmounts_log. }
    destruct (unmount_retry env 10 0 p f (record lg w)) as [[err'|e] w2];
      cbn [fst snd] in Hw, Hlast; subst w2.
    + (* the point is done; on to the next one *)
      destruct Hlast as [Hlast _].
      destruct (IH err' (add_events (repeat (EvUnmount p f) (S k)) (record lg w)))
        as (new & Hw & Hin & Hfatal).
      exists (lg :: repeat (EvUnmount p f) (S k) ++ new).
      split; [|split].
      * rewrite Hw, record_add_events, !add_events_app. reflexivity.
      * cbn [forallb umount_inner lg]. rewrite forallb_app, Hin, andb_true_r.
        apply forallb_forall. intros x Hx. apply repeat_spec in Hx. now subst x.
      * intros a p' f' b errno Hsplit Hf.
        destruct a as [|z a]; [discriminate Hsplit|].
        injection Hsplit as Hz Hsplit. subst z.
        change (repeat (EvUnmount p f) (S k) ++ new = a ++ EvUnmount p' f' :: b) in Hsplit.
        destruct (split_repeat_app _ _ _ _ _ _ Hsplit)
          as [(j & Hj & Ha & Hy & Hb) | (a2 & Ha & Hnew)].
        -- injection Hy as -> ->. subst a. exfalso.
           assert (Hnone : fatal env (trace (record lg w) ++ repeat (EvUnmount p f) j) p f = None).
           { destruct (Nat.eq_dec j k) as [->|]; [exact Hlast | apply Hpre; lia]. }
           simpl in Hnone. rewrite <- app_assoc in Hnone. simpl in Hnone.
           rewrite Hnone in Hf. discriminate Hf.
        -- subst a. apply (Hfatal a2 p' f' b errno Hnew).
           replace (trace (add_events (repeat (EvUnmount p f) (S k)) (record lg w)) ++ a2)
             with (trace w ++ lg :: repeat (EvUnmount p f) (S k) ++ a2); [exact Hf|].
           unfold add_events, record. cbn [trace]. now rewrite <- !app_assoc.
    + (* a fatal answer: the loop is left *)
      destruct Hlast as (errno0 & Hlast & ->).
      exists (lg :: repeat (EvUnmount p f) (S k)).
      split; [|split].
      * simpl fst. simpl snd. rewrite record_add_events, add_events_app. reflexivity.
      * cbn [forallb umount_inner lg]. 
        apply forallb_forall. intros x Hx. apply repeat_spec in Hx. now subst x.
      * intros a p' f' b errno Hsplit Hf.
        destruct a as [|z a]; [discriminate Hsplit|].
        injection Hsplit as Hz Hsplit. subst z.
        change (repeat (EvUnmount p f) (S k) = a ++ EvUnmount p' f' :: b) in Hsplit.
        rewrite <- (app_nil_r (repeat (EvUnmount p f) (S k))) in Hsplit.
        destruct (split_repeat_app _ _ _ _ _ _ Hsplit)
          as [(j & Hj & Ha & Hy & Hb) | (a2 & Ha & Hnew)].
        -- injection Hy as -> ->. subst a.
           assert (Hhist : trace w ++ lg :: repeat (EvUnmount p f) j
                           = trace (record lg w) ++ repeat (EvUnmount p f) j).
           { simpl. now rewrite <- app_assoc. }
           rewrite Hhist in Hf.
           destruct (Nat.eq_dec j k) as [->|Hne].
           ++ rewrite Hlast in Hf. injection Hf as ->.
              rewrite Hb, Nat.sub_diag, app_nil_r. split; reflexivity.
           ++ rewrite Hpre in Hf by lia. discriminate Hf.
        -- destruct a2; discriminate Hnew.
Qed.

Lemma umount_loop_effective (g : Globals) (f : Z) (n : nat) (err : option error) (w : World) :
  effective (snd (umount_loop env g n f err w)) = effective w.
Proof.
  destruct (umount_loop_spec g f n err w) as (new & Hw & _). now rewrite Hw.
Qed.

(** [umount] written out: the raise, the loop, the two deferred calls. *)
Lemma umount_eq (g : Globals) (lazy : bool) (w : World) :
  umount env g lazy w =
  let w0 := add_events [EvUmountCall lazy; EvLockOSThread] w in
  match capset_error env (trace w0) (raised_caps env) with
  | Some e =>
      (Some e, add_events [EvSetProcessEffective (raised_caps env); EvUnlockOSThread] w0)
  | None =>
      let w1 := {| trace := trace w0 ++ [EvSetProcessEffective (raised_caps env)];
                   effective := raised_caps env |} in
      let rw := umount_loop env g (List.length (umountPoints g)) (umount_flags lazy) None w1 in
      let restore := capset_error env (trace (snd rw)) (effective w) in
      (match loop_error (fst rw) with Some e => Some e | None => restore end,
       {| trace := trace (snd rw) ++ [EvSetProcessEffective (effective w); EvUnlockOSThread];
          effective := match restore with
                       | None => effective w
                       | Some _ => raised_caps env
                       end |})
  end.
Proof.
  unfold umount.
  change (Z.lor 0 (Z.shiftl 1 (CAP_SYS_ADMIN_Value env) mod 2 ^ 64)) with (raised_caps env).
  change (if lazy then MNT_DETACH else 0%Z) with (umount_flags lazy).
  generalize (raised_caps env) as caps. generalize (umount_flags lazy) as fl.
  intros fl caps.
  unfold bind, emit, extern, SetProcessEffective, record, add_events.
  cbn [trace effective]. rewrite <- !app_assoc. cbn [app].
  destruct (capset_error env (trace w ++ [EvUmountCall lazy; EvLockOSThread]) caps) as [e|].
  - cbn [trace effective]. rewrite <- !app_assoc. reflexivity.
  - cbn [trace effective]. rewrite <- ?app_assoc. cbn [app].
    match goal with |- context [umount_loop env g ?n fl None ?w1] =>
      pose proof (umount_loop_effective g fl n None w1) as Heff;
      destruct (umount_loop env g n fl None w1) as [r w2] end.
    cbn [fst snd effective] in Heff |- *.
    destruct (capset_error env (trace w2) (effective w)) as [e|];
      destruct r as [[e'|]|e']; unfold ret; cbn [loop_error snd fst trace effective];
      rewrite <- ?app_assoc; cbn [app]; rewrite ?Heff; reflexivity.
Qed.

Lemma split_app {A : Type} (y : A) :
  forall (l1 l2 a b : list A),
    l1 ++ l2 = a ++ y :: b ->
    (exists b', l1 = a ++ y :: b' /\ b = b' ++ l2)
    \/ (exists a', a = l1 ++ a' /\ l2 = a' ++ y :: b).
Proof.
  induction l1 as [|x l1 IH]; intros l2 a b H.
  - right. exists a. split; [reflexivity | exact H].
  - destruct a as [|z a]; simpl in H; injection H as Hx H.
    + left. exists l1. subst. split; reflexivity.
    + subst z. destruct (IH l2 a b H) as [(b' & Hl & Hb) | (a' & Ha & Hl)].
      * left. exists b'. subst. split; reflexivity.
      * right. exists a'. subst. split; reflexivity.
Qed.

(** Points registered in front of the list are reached only after all the
    others: until then the loop does not look at them. *)
Lemma umount_loop_register_before (g : Globals) (earlier : list string) (f : Z) :
  forall (m : nat) (err : option error) (w : World),
    umount_loop env (register_before earlier g) (List.length earlier + m) f err w =
    match umount_loop env g m f err w with
    | (Next err', w') =>
        umount_loop env (register_before earlier g) (List.length earlier) f err' w'
    | (Return e, w') => (Return e, w')
    end.
Proof.
  induction m as [|m IH]; intros err w.
  - rewrite Nat.add_0_r. reflexivity.
  - rewrite Nat.add_succ_r, !umount_loop_S. cbv zeta.
    cbn [register_before umountPoints]. rewrite app_nth2_plus.
    destruct (unmount_retry env 10 0 _ f _) as [[err'|e] w2]; [apply IH | reflexivity].
Qed.

(** C10.  When an [unmount(2)] call of [umount] gets a fatal answer (an
    errno other than EINVAL, or EBUSY once the retries are used up), [umount]
    returns the error of that point, nothing follows the call but the two
    deferred calls (restore the capabilities, unlock the thread), and the
    run is the same whatever points are registered earlier in the list: none
    of them is attempted. *)
Theorem umount_stops_at_fatal (g : Globals) (lazy : bool) (w : World)
    (a : list Event) (p : string) (f : Z) (b : list Event) (errno : Z)
    (earlier : list string) :
  trace (snd (umount env g lazy w)) = trace w ++ a ++ EvUnmount p f :: b ->
  fatal env (trace w ++ a) p f = Some errno ->
  fst (umount env g lazy w) = Some (unmount_error p errno)
  /\ b = [EvSetProcessEffective (effective w); EvUnlockOSThread]
  /\ umount env (register_before earlier g) lazy w = umount env g lazy w.
Proof.
  intros Htrace Hfatal.
  rewrite (umount_eq (register_before earlier g)).
  rewrite umount_eq in Htrace |- *. cbv zeta in Htrace |- *.
  destruct (capset_error env _ (raised_caps env)) as [e|].
  - exfalso. cbn [snd trace add_events] in Htrace.
    rewrite <- !app_assoc in Htrace. apply app_inv_head in Htrace.
    repeat (destruct a as [|? a]; [discriminate Htrace | injection Htrace as _ Htrace]).
    destruct a; discriminate Htrace.
  - set (w1 := {| trace := _; effective := raised_caps env |}) in *.
    cbn [register_before umountPoints]. rewrite length_app.
    rewrite umount_loop_register_before.
    destruct (umount_loop_spec g (umount_flags lazy) (List.length (umountPoints g)) None w1)
      as (new & Hw & _ & Hspec).
    destruct (umount_loop env g _ (umount_flags lazy) None w1) as [r w2].
    cbn [fst snd] in *. subst w2.
    cbn [trace add_events w1] in Htrace.
    rewrite <- !app_assoc in Htrace. apply app_inv_head in Htrace.
    cbn [app] in Htrace.
    do 3 (destruct a as [|? a]; [discriminate Htrace | injection Htrace as <- Htrace]).
    destruct (split_app _ _ _ _ _ Htrace) as [(b' & Hnew & Hb) | (a' & Ha & Hrest)].
    + destruct (Hspec a p f b' errno Hnew) as [-> ->].
      { cbn [trace add_events w1]. rewrite <- !app_assoc. exact Hfatal. }
      cbn [loop_error]. subst b. repeat split.
    + exfalso.
      repeat (destruct a' as [|? a']; [discriminate Hrest | injection Hrest as _ Hrest]).
      destruct a'; discriminate Hrest.
Qed.

(** C9 (as amended).  When the raise of CAP_SYS_ADMIN fails, [umount]
    returns that error, having made no [unmount(2)] call and left the
    effective set as it was.  When the raise succeeds, then on every way out
    of the loop the last two calls of [umount] are the restore of the
    snapshot taken at the raise and the unlock of the thread, the effective
    set is the initial one again whenever the restore succeeds, and the
    returned error is the one left by the loop if there is one, the error of
    the restore only otherwise. *)
Theorem umount_capability_bracket (g : Globals) (lazy : bool) (w : World) :
  let w0 := add_events [EvUmountCall lazy; EvLockOSThread] w in
  let caps := raised_caps env in
  (forall e,
     capset_error env (trace w0) caps = Some e ->
     umount env g lazy w
     = (Some e, add_events [EvSetProcessEffective caps; EvUnlockOSThread] w0))
  /\ (capset_error env (trace w0) caps = None ->
      exists (mid : list Event) (r : flow (option error) error),
        let w1 := {| trace := trace w0 ++ [EvSetProcessEffective caps];
                     effective := caps |} in
        let restore := capset_error env (trace w1 ++ mid) (effective w) in
        umount_loop env g (List.length (umountPoints g)) (umount_flags lazy) None w1
        = (r, add_events mid w1)
        /\ trace (snd (umount env g lazy w))
           = trace w1 ++ mid ++ [EvSetProcessEffective (effective w); EvUnlockOSThread]
        /\ (restore = None -> effective (snd (umount env g lazy w)) = effective w)
        /\ fst (umount env g lazy w)
           = match loop_error r with
             | Some e => Some e
             | None => restore
             end).
Proof.
  intros w0 caps. rewrite umount_eq. cbv zeta. fold w0. fold caps. split.
  - intros e ->. reflexivity.
  - intros ->.
    set (w1 := {| trace := _; effective := caps |}).
    destruct (umount_loop_spec g (umount_flags lazy) (List.length (umountPoints g)) None w1)
      as (mid & Hw & _).
    destruct (umount_loop env g _ (umount_flags lazy) None w1) as [r w2].
    cbn [fst snd] in *. subst w2.
    exists mid, r. cbn [trace add_events].
    repeat split.
    + now rewrite <- app_assoc.
    + intros ->. reflexivity.
Qed.

(** Where every point unmounts at once or is "not a mount point", the
    [unmount(2)] calls of the loop follow the registered list backwards, one
    call per point. *)
Lemma firstn_S_nth {A : Type} (d : A) :
  forall (l : list A) (i : nat),
    i < List.length l -> firstn (S i) l = firstn i l ++ [nth i l d].
Proof.
  induction l as [|x l IH]; intros i Hi; simpl in Hi; [lia|].
  destruct i as [|i]; [reflexivity|].
  cbn [firstn nth app]. now rewrite <- IH by lia.
Qed.

Lemma umount_loop_reverse_order (g : Globals) (f : Z) :
  (forall h p f', sys_Unmount env h p f' = None \/ sys_Unmount env h p f' = Some EINVAL) ->
  forall (n : nat) (err : option error) (w : World),
    n <= List.length (umountPoints g) ->
    exists new err',
      umount_loop env g n f err w = (Next err', add_events new w)
      /\ filter is_unmount new
         = map (fun p => EvUnmount p f) (rev (firstn n (umountPoints g))).
Proof.
  intros Hbenign. induction n as [|i IH]; intros err w Hn.
  - exists [], err. simpl. now rewrite add_events_nil.
  - rewrite umount_loop_S. cbv zeta.
    set (p := nth i (umountPoints g) "").
    set (lg := EvLog Debug "Umount %s" [ArgString p]).
    rewrite unmount_retry_eq. cbv zeta.
    rewrite (firstn_S_nth "") by lia. fold p.
    rewrite rev_app_distr. cbn [rev app map].
    destruct (Hbenign (trace (record lg w)) p f) as [-> | ->].
    + destruct (IH None (record (EvUnmount p f) (record lg w)) ltac:(lia))
        as (new & err' & -> & Hnew).
      exists (lg :: EvUnmount p f :: new), err'.
      rewrite !record_add_events, !add_events_app. cbn [app].
      split; [reflexivity|]. cbn. now rewrite Hnew.
    + change (negb (EINVAL =? EINVAL)%Z) with false. cbv iota.
      destruct (IH (Some (Errno EINVAL)) (record (EvUnmount p f) (record lg w)) ltac:(lia))
        as (new & err' & -> & Hnew).
      exists (lg :: EvUnmount p f :: new), err'.
      rewrite !record_add_events, !add_events_app. cbn [app].
      split; [reflexivity|]. cbn. now rewrite Hnew.
Qed.

End Retry.

(** *** Projections of the trace of a computation *)

Section Emits.
Context {X : Type} (proj : Event -> list X).

Lemma emits_ret {A : Type} (a : A) : emits proj (ret a) [].
Proof. intros w. exists []. simpl. now rewrite app_nil_r. Qed.

Lemma emits_extern {A : Type} (env_answer : list Event -> A) (ev : Event) (s : list X) :
  proj ev = s -> emits proj (extern ev env_answer) s.
Proof. intros <- w. exists [ev]. simpl. now rewrite app_nil_r. Qed.

Lemma emits_bind {A B : Type} (m : M World A) (k : A -> M World B) (s1 s2 : list X) :
  emits proj m s1 -> (forall a, emits proj (k a) s2) -> emits proj (bind m k) (s1 ++ s2).
Proof.
  intros Hm Hk w. unfold bind.
  destruct (Hm w) as (n1 & H1 & P1). destruct (m w) as [a w1]. simpl in H1.
  destruct (Hk a w1) as (n2 & H2 & P2).
  exists (n1 ++ n2). rewrite H2, H1, app_assoc, flat_map_app, P1, P2. split; reflexivity.
Qed.

Lemma emits_bind_l {A B : Type} (m : M World A) (k : A -> M World B) (s : list X) :
  emits proj m [] -> (forall a, emits proj (k a) s) -> emits proj (bind m k) s.
Proof. intros Hm Hk. exact (emits_bind m k [] s Hm Hk). Qed.

Lemma emits_bind_r {A B : Type} (m : M World A) (k : A -> M World B) (s : list X) :
  emits proj m s -> (forall a, emits proj (k a) []) -> emits proj (bind m k) s.
Proof. intros Hm Hk. rewrite <- (app_nil_r s). exact (emits_bind m k s [] Hm Hk). Qed.

(** Projections that see the start of a step only. *)
Hypothesis silent : forall ev, quiet_event ev = true -> proj ev = [].

Lemma inner_silent (ev : Event) : umount_inner ev = true -> proj ev = [].
Proof. intros H. apply silent. destruct ev; try discriminate H; reflexivity. Qed.

Lemma flat_map_inner (l : list Event) :
  forallb umount_inner l = true -> flat_map proj l = [].
Proof.
  induction l as [|ev l IH]; [reflexivity|]. cbn [forallb flat_map].
  intros H. apply andb_prop in H as [H1 H2].
  now rewrite (inner_silent ev H1), IH.
Qed.

Lemma emits_quiet {A : Type} (env_answer : list Event -> A) (ev : Event) :
  quiet_event ev = true -> emits proj (extern ev env_answer) [].
Proof. intros H. apply emits_extern. now apply silent. Qed.

Lemma emits_umount (env : Env) (g : Globals) (lazy : bool) :
  emits proj (umount env g lazy) (proj (EvUmountCall lazy)).
Proof.
  intros w. rewrite umount_eq. cbv zeta.
  destruct (capset_error env _ (raised_caps env)) as [e|].
  - exists [EvUmountCall lazy; EvLockOSThread; EvSetProcessEffective (raised_caps env);
            EvUnlockOSThread].
    cbn [snd trace add_events]. rewrite <- app_assoc. split; [reflexivity|].
    cbn [flat_map app].
    rewrite (inner_silent EvLockOSThread), (inner_silent (EvSetProcessEffective _)),
      (inner_silent EvUnlockOSThread) by reflexivity.
    now rewrite !app_nil_r.
  - set (w1 := {| trace := _; effective := raised_caps env |}).
    destruct (umount_loop_spec env g (umount_flags lazy) (List.length (umountPoints g)) None w1)
      as (mid & Hw & Hin & _).
    rewrite Hw.
    exists (EvUmountCall lazy
            :: [EvLockOSThread; EvSetProcessEffective (raised_caps env)]
               ++ mid ++ [EvSetProcessEffective (effective w); EvUnlockOSThread]).
    cbn [snd trace add_events w1]. rewrite <- !app_assoc. split; [reflexivity|].
    cbn [flat_map app]. rewrite !flat_map_app, (flat_map_inner mid Hin).
    cbn [flat_map app].
    rewrite (inner_silent EvLockOSThread), !(inner_silent (EvSetProcessEffective _)),
      (inner_silent EvUnlockOSThread) by reflexivity.
    now rewrite !app_nil_r.
Qed.

Lemma emits_log_if_error (lvl : level) (format : string) (args : error -> list fmt_arg)
    (err : option error) :
  emits proj (log_if_error lvl format args err) [].
Proof.
  destruct err as [e|]; [|apply emits_ret].
  now apply emits_quiet.
Qed.

Lemma emits_cleanupCrypt (env : Env) (g : Globals) (path : string) :
  emits proj (cleanupCrypt env g path) (proj (EvCleanupCryptCall path)).
Proof.
  unfold cleanupCrypt.
  apply emits_bind_r; [now apply emits_extern | intros _].
  apply emits_bind_l.
  { rewrite <- (silent (EvUmountCall false) eq_refl). apply emits_umount. }
  intros [e|]; [apply emits_ret|].
  apply emits_bind_l; [now apply emits_quiet|].
  intros [e|]; apply emits_ret.
Qed.

Lemma emits_fakerootCleanup (env : Env) (path : string) :
  (forall name cfg suid, proj (EvStarterRun name cfg suid) = []) ->
  emits proj (fakerootCleanup env path) (proj (EvFakerootCleanupCall path)).
Proof.
  intros Hrun. unfold fakerootCleanup.
  apply emits_bind_r; [now apply emits_extern | intros _].
  apply emits_bind_l; [now apply emits_quiet|].
  intros [rm|e]; [|apply emits_ret].
  cbv zeta. apply emits_bind_l; [now apply emits_quiet | intros _].
  apply emits_extern. apply Hrun.
Qed.

End Emits.

Lemma step_silent (ev : Event) : quiet_event ev = true -> step_of_event ev = [].
Proof. destruct ev as [| [] | | | | | | | | | | | | | | | | | | |]; try discriminate; reflexivity. Qed.

Lemma removal_silent (ev : Event) : quiet_event ev = true -> removal_of_event ev = [].
Proof. destruct ev; try discriminate; reflexivity. Qed.

(** Walks through a block of [CleanupContainer] for a projection [proj]
    whose silence on the quiet events is [silent]. *)
Ltac emits_go silent :=
  cbv zeta;
  lazymatch goal with
  | |- emits _ (ret _) _ => apply emits_ret
  | |- emits _ (bind _ _) _ =>
      first [ apply emits_bind_l; [ solve [emits_go silent] | intro; emits_go silent ]
            | apply emits_bind_r; [ solve [emits_go silent] | intro; solve [emits_go silent] ] ]
  | |- emits _ (umount _ _ _) _ => apply (emits_umount _ silent)
  | |- emits _ (cleanupCrypt _ _ _) _ => apply (emits_cleanupCrypt _ silent)
  | |- emits _ (fakerootCleanup _ _) _ =>
      apply (emits_fakerootCleanup _ silent); intros; reflexivity
  | |- emits _ (log_if_error _ _ _ _) _ => apply (emits_log_if_error _ silent)
  | |- emits _ (sylog _ _ _) _ => apply emits_extern; reflexivity
  | |- emits _ (emit _) _ => apply emits_extern; reflexivity
  | |- emits _ (extern _ _) _ => apply emits_extern; reflexivity
  | |- emits _ (if ?c then _ else _) _ => destruct c; emits_go silent
  | |- emits _ (match ?x with inl _ => _ | inr _ => _ end) _ => destruct x; emits_go silent
  end.

(** *** Stepping through a computation *)

Lemma bind_extern_run {A B : Type} (ev : Event) (answer : list Event -> A)
    (k : A -> M World B) (w : World) :
  bind (extern ev answer) k w = k (answer (trace w)) (record ev w).
Proof. reflexivity. Qed.

Lemma bind_ret_run {A B : Type} (a : A) (k : A -> M World B) (w : World) :
  bind (ret a) k w = k a w.
Proof. reflexivity. Qed.

Lemma bind_assoc_run {A B C : Type} (m : M World A) (k1 : A -> M World B)
    (k2 : B -> M World C) (w : World) :
  bind (bind m k1) k2 w = bind m (fun a => bind (k1 a) k2) w.
Proof. unfold bind. destruct (m w) as [a w1]. reflexivity. Qed.

Lemma bind_run {A B : Type} (m : M World A) (k : A -> M World B) (w : World) :
  bind m k w = k (fst (m w)) (snd (m w)).
Proof. unfold bind. now destruct (m w). Qed.

(** *** The steps of the teardown, one after the other *)

Section Steps.
Context {X : Type} (proj : Event -> list X).
Hypothesis silent : forall ev, quiet_event ev = true -> proj ev = [].
Hypothesis run_silent : forall name cfg suid, proj (EvStarterRun name cfg suid) = [].
Hypothesis removal_alike :
  forall path, proj (EvFakerootCleanupCall path) = proj (EvRemoveAll path).
Variable env : Env.
Variable g : Globals.
Variable e : EngineOperations.

Lemma reaches_refl (w : World) : reaches proj w w [].
Proof. exists []. now rewrite app_nil_r. Qed.

Lemma reaches_record (w W : World) (s : list X) (ev : Event) :
  reaches proj w W s -> reaches proj w (record ev W) (s ++ proj ev).
Proof.
  intros (new & Ht & Hs). exists (new ++ [ev]). cbn [record trace].
  rewrite Ht, <- app_assoc, flat_map_app, Hs. cbn. now rewrite app_nil_r.
Qed.

Lemma reaches_quiet (w W : World) (s : list X) (ev : Event) :
  quiet_event ev = true -> reaches proj w W s -> reaches proj w (record ev W) s.
Proof.
  intros Hq H. apply (reaches_record w W s ev) in H.
  now rewrite (silent ev Hq), app_nil_r in H.
Qed.

Lemma reaches_run {A : Type} (w W : World) (s t : list X) (m : M World A) :
  emits proj m t -> reaches proj w W s -> reaches proj w (snd (m W)) (s ++ t).
Proof.
  intros Hm (new & Ht & Hs). destruct (Hm W) as (n & Hn & Hp).
  exists (new ++ n). now rewrite Hn, Ht, <- app_assoc, flat_map_app, Hs, Hp.
Qed.

Lemma reaches_only_logged (w : World) (s : list X) (lvl : level) (format : string)
    (args : error -> list fmt_arg) (r : option error * World) :
  reaches proj w (snd r) s -> reaches proj w (only_logged lvl format args r) s.
Proof.
  intros H. unfold only_logged. destruct (fst r); [|exact H].
  now apply reaches_quiet.
Qed.

Lemma reaches_lazy_unmount_step (w W : World) (s : list X) :
  reaches proj w W s ->
  reaches proj w (lazy_unmount_step env g e W)
    (s ++ if GetImageFuse (engineConfig e) then proj (EvUmountCall true) else []).
Proof.
  intros H. unfold lazy_unmount_step. destruct (GetImageFuse (engineConfig e)).
  - apply reaches_only_logged. apply reaches_run; [|exact H].
    apply emits_umount. exact silent.
  - now rewrite app_nil_r.
Qed.

Lemma reaches_tempdir_step (w W : World) (s : list X) :
  reaches proj w W s ->
  reaches proj w (tempdir_step env e W)
    (s ++ if negb (String.eqb (GetDeleteTempDir (engineConfig e)) "")
             && negb (GetImageFuse (engineConfig e))
          then proj (EvRemoveAll (GetDeleteTempDir (engineConfig e))) else []).
Proof.
  intros H. unfold tempdir_step. cbv zeta.
  destruct (negb (String.eqb (GetDeleteTempDir (engineConfig e)) "")
            && negb (GetImageFuse (engineConfig e))); [|now rewrite app_nil_r].
  apply reaches_only_logged.
  apply (reaches_quiet _ _ _ (EvLog Verbose "Removing image tempDir %s"
                                [ArgString (GetDeleteTempDir (engineConfig e))]) eq_refl) in H.
  apply (reaches_quiet _ _ _ (EvLog Info "Cleaning up image..." []) eq_refl) in H.
  destruct (GetFakeroot (engineConfig e)).
  - apply (reaches_quiet _ _ _ EvGetuid eq_refl) in H.
    destruct (negb (os_Getuid env _ =? 0)%Z).
    + rewrite <- removal_alike. apply reaches_run; [|exact H].
      apply emits_fakerootCleanup; assumption.
    + cbn [snd]. now apply reaches_record.
  - cbn [snd]. now apply reaches_record.
Qed.

Lemma reaches_network_step (w W : World) (s : list X) :
  reaches proj w W s ->
  reaches proj w (network_step env g e W)
    (s ++ match networkSetup g with Some _ => proj EvDelNetworks | None => [] end).
Proof.
  intros H. unfold network_step. destruct (networkSetup g); [|now rewrite app_nil_r].
  cbv zeta.
  destruct (negb (String.eqb (GetNetwork (engineConfig e)) "none")); cbn [andb].
  - destruct (negb (os_Geteuid env (trace W) =? 0)%Z);
      apply (reaches_quiet _ _ _ EvGeteuid eq_refl) in H.
    + apply reaches_quiet; [reflexivity|].
      apply reaches_only_logged; cbn [snd]; apply reaches_record.
      apply reaches_quiet; [reflexivity|]. apply reaches_quiet; [reflexivity|]. exact H.
    + apply reaches_only_logged; cbn [snd]; apply reaches_record.
      apply reaches_quiet; [reflexivity|]. exact H.
  - apply reaches_only_logged; cbn [snd]; apply reaches_record.
    apply reaches_quiet; [reflexivity|]. exact H.
Qed.

Lemma reaches_cgroups_step (w W : World) (s : list X) :
  reaches proj w W s ->
  reaches proj w (cgroups_step env g W)
    (s ++ match cgroupsManager g with Some _ => proj EvCgroupsDestroy | None => [] end).
Proof.
  intros H. unfold cgroups_step. destruct (cgroupsManager g); [|now rewrite app_nil_r].
  apply reaches_only_logged. cbn [snd]. now apply reaches_record.
Qed.

Lemma reaches_crypt_step (w W : World) (s : list X) :
  reaches proj w W s ->
  reaches proj w (crypt_step env g W)
    (s ++ if negb (String.eqb (cryptDev g) "")
          then proj (EvCleanupCryptCall (cryptDev g)) else []).
Proof.
  intros H. unfold crypt_step. destruct (negb (String.eqb (cryptDev g) ""));
    [|now rewrite app_nil_r].
  apply reaches_only_logged. apply reaches_run; [|exact H].
  apply emits_cleanupCrypt. exact silent.
Qed.

Lemma reaches_before_instance (w : World) :
  reaches proj w (before_instance env g e w)
    (proj EvStopFuseDrivers
     ++ (if GetImageFuse (engineConfig e) then proj (EvUmountCall true) else [])
     ++ (if negb (String.eqb (GetDeleteTempDir (engineConfig e)) "")
            && negb (GetImageFuse (engineConfig e))
         then proj (EvRemoveAll (GetDeleteTempDir (engineConfig e))) else [])
     ++ (match networkSetup g with Some _ => proj EvDelNetworks | None => [] end)
     ++ (match cgroupsManager g with Some _ => proj EvCgroupsDestroy | None => [] end)
     ++ (if negb (String.eqb (cryptDev g) "")
         then proj (EvCleanupCryptCall (cryptDev g)) else [])).
Proof.
  unfold before_instance. rewrite !app_assoc.
  apply reaches_crypt_step, reaches_cgroups_step, reaches_network_step,
    reaches_tempdir_step, reaches_lazy_unmount_step.
  rewrite <- (app_nil_l (proj EvStopFuseDrivers)).
  apply reaches_record, reaches_refl.
Qed.

End Steps.

Lemma instance_silent (ev : Event) : quiet_event ev = true -> instance_of_event ev = [].
Proof. destruct ev; try discriminate; reflexivity. Qed.

(** [CleanupContainer] is its six first steps, each leaving its world to the
    next, and then the instance file. *)
Lemma CleanupContainer_eq (env : Env) (g : Globals) (e : EngineOperations) (w : World) :
  let w6 := before_instance env g e w in
  let id := ContainerID (commonConfig e) in
  let sub := instance_SingSubDir env in
  CleanupContainer env g e w
  = if GetInstance (engineConfig e) then
      match instance_Get_result env (trace w6) id sub with
      | inr err => (Some err, record (EvInstanceGet id sub) w6)
      | inl file =>
          (file_Delete_result env (trace w6 ++ [EvInstanceGet id sub]) file,
           record (EvFileDelete file) (record (EvInstanceGet id sub) w6))
      end
    else (None, w6).
Proof.
  cbv zeta. unfold before_instance.
  set (w1 := record EvStopFuseDrivers w).
  set (w2 := lazy_unmount_step env g e w1).
  set (w3 := tempdir_step env e w2).
  set (w4 := network_step env g e w3).
  set (w5 := cgroups_step env g w4).
  set (w6 := crypt_step env g w5).
  unfold CleanupContainer. unfold emit at 1.
  rewrite bind_extern_run. fold w1.
  (* step 2 *)
  rewrite bind_run. cbv beta.
  match goal with
  | |- context [snd (?m w1)] =>
      assert (H : forall w0, snd (m w0) = lazy_unmount_step env g e w0)
  end.
  { intros w0. unfold lazy_unmount_step, only_logged.
    destruct (GetImageFuse (engineConfig e)); [|reflexivity].
    rewrite bind_run. unfold log_if_error. now destruct (fst (umount env g true w0)). }
  rewrite H. clear H. fold w2.
  (* step 3 *)
  rewrite bind_run. cbv beta.
  match goal with
  | |- context [snd (?m w2)] =>
      assert (H : forall w0, snd (m w0) = tempdir_step env e w0)
  end.
  { intros w0. unfold tempdir_step, only_logged, log_if_error, sylog, emit. cbv zeta.
    destruct (negb (String.eqb (GetDeleteTempDir (engineConfig e)) "")
              && negb (GetImageFuse (engineConfig e))); [|reflexivity].
    rewrite !bind_extern_run.
    destruct (GetFakeroot (engineConfig e)); cbn [andb].
    - rewrite bind_extern_run.
      destruct (negb (os_Getuid env _ =? 0)%Z).
      + rewrite bind_run. now destruct (fst (fakerootCleanup env _ _)).
      + rewrite bind_extern_run. cbn [fst snd].
        now destruct (os_RemoveAll_result env _ _).
    - rewrite bind_ret_run, bind_extern_run. cbn [fst snd].
      now destruct (os_RemoveAll_result env _ _). }
  rewrite H. clear H. fold w3.
  (* step 4 *)
  rewrite bind_run. cbv beta.
  match goal with
  | |- context [snd (?m w3)] =>
      assert (H : forall w0, snd (m w0) = network_step env g e w0)
  end.
  { intros w0. unfold network_step, only_logged, log_if_error, sylog, emit.
    destruct (networkSetup g); [|reflexivity].
    cbv zeta.
    destruct (negb (String.eqb (GetNetwork (engineConfig e)) "none")); cbn [andb].
    - rewrite bind_extern_run.
      destruct (negb (os_Geteuid env (trace w0) =? 0)%Z);
        unfold bind, extern, ret; cbn [fst snd]; cbv beta iota zeta;
        destruct (DelNetworks_result env _); reflexivity.
    - unfold bind, extern, ret; cbn [fst snd]; cbv beta iota zeta.
      destruct (DelNetworks_result env _); reflexivity. }
  rewrite H. clear H. fold w4.
  (* step 5 *)
  rewrite bind_run. cbv beta.
  match goal with
  | |- context [snd (?m w4)] =>
      assert (H : forall w0, snd (m w0) = cgroups_step env g w0)
  end.
  { intros w0. unfold cgroups_step, only_logged, log_if_error, sylog, emit.
    destruct (cgroupsManager g); [|reflexivity].
    rewrite bind_extern_run. cbn [fst snd].
    now destruct (cgroups_Destroy_result env _). }
  rewrite H. clear H. fold w5.
  (* step 6 *)
  rewrite bind_run. cbv beta.
  match goal with
  | |- context [snd (?m w5)] =>
      assert (H : forall w0, snd (m w0) = crypt_step env g w0)
  end.
  { intros w0. unfold crypt_step, only_logged, log_if_error.
    destruct (negb (String.eqb (cryptDev g) "")); [|reflexivity].
    rewrite bind_run. now destruct (fst (cleanupCrypt env g _ _)). }
  rewrite H. clear H. fold w6.
  (* the instance file *)
  destruct (GetInstance (engineConfig e)); [|reflexivity].
  rewrite bind_extern_run.
  destruct (instance_Get_result env (trace w6) _ _); reflexivity.
Qed.

(** C1.  Whatever the environment answers (that is, whichever of the calls
    of steps 1 to 6 fail), [CleanupContainer] runs the steps 1 to 6 one after
    the other, each from the world that the step before has left: a step that
    fails leaves one log line with its error (a warning for the cgroup, an
    error otherwise) and nothing else, and the next step runs all the same.
    The steps that run are exactly those that the configuration and the
    registries call for, in order, and none of them touches the instance
    file.  Then, when the configuration marks a named instance,
    [CleanupContainer] looks the instance file up and deletes it and returns
    the error of that last step (of the lookup, or else of the deletion), and
    when it does not, it touches no instance file and returns nil. *)
Theorem CleanupContainer_runs_every_step (env : Env) (g : Globals)
    (e : EngineOperations) (w : World) :
  let w6 := before_instance env g e w in
  let id := ContainerID (commonConfig e) in
  let sub := instance_SingSubDir env in
  CleanupContainer env g e w
  = (if GetInstance (engineConfig e) then
       match instance_Get_result env (trace w6) id sub with
       | inr err => (Some err, add_events [EvInstanceGet id sub] w6)
       | inl file =>
           (file_Delete_result env (trace w6 ++ [EvInstanceGet id sub]) file,
            add_events [EvInstanceGet id sub; EvFileDelete file] w6)
       end
     else (None, w6))
  /\ exists pre,
       trace w6 = trace w ++ pre
       /\ flat_map step_of_event pre = steps_before_instance g e
       /\ flat_map instance_of_event pre = [].
Proof.
  intros w6 id sub. split.
  - rewrite CleanupContainer_eq. cbv zeta. fold w6 id sub.
    destruct (GetInstance (engineConfig e)); [|reflexivity].
    destruct (instance_Get_result env (trace w6) id sub) as [file|err]; [|reflexivity].
    now rewrite !record_add_events, add_events_app.
  - destruct (reaches_before_instance step_of_event step_silent
                ltac:(reflexivity) ltac:(reflexivity) env g e w) as (pre & Ht & Hs).
    destruct (reaches_before_instance instance_of_event instance_silent
                ltac:(reflexivity) ltac:(reflexivity) env g e w) as (pre' & Ht' & Hi).
    fold w6 in Ht, Ht'. rewrite Ht in Ht'. apply app_inv_head in Ht'. subst pre'.
    exists pre. split; [exact Ht|]. split.
    + rewrite Hs. reflexivity.
    + rewrite Hi.
      destruct (GetImageFuse (engineConfig e)),
        (negb (String.eqb (GetDeleteTempDir (engineConfig e)) "")),
        (networkSetup g), (cgroupsManager g), (negb (String.eqb (cryptDev g) ""));
        reflexivity.
Qed.

(** The scenario of the specification, and worse: the removal of the
    temporary directory fails, and so do the network detachment, the cgroup
    destruction, the unmount before the crypt device and the deletion of the
    instance file.  All the steps called for are run, four complaints are
    logged, and the caller gets the error of the deletion alone. *)
Example CleanupContainer_every_step_failing :
  let r := CleanupContainer CleanupFixtures.everything_fails
             CleanupFixtures.everything_set_up CleanupFixtures.fakeroot_instance
             CleanupFixtures.start in
  fst r = Some (ErrorString "unlink: permission denied")
  /\ flat_map step_of_event (trace (snd r)) = [1; 3; 4; 5; 6; 7]
  /\ CleanupFixtures.complaints (trace (snd r))
     = ["failed to delete container image tempDir %s: %s";
        "could not delete networks: %v";
        "failed to remove cgroup configuration: %v";
        "could not cleanup crypt: %v"].
Proof. repeat split. Qed.

Ltac step_run :=
  repeat (first [ rewrite bind_extern_run | rewrite bind_ret_run | rewrite bind_assoc_run ];
          cbv beta).

Lemma emits_after {X A : Type} (proj : Event -> list X) (m : M World A)
    (s0 s : list X) (pre : list Event) (w w' : World) :
  emits proj m s ->
  trace w' = trace w ++ pre ->
  flat_map proj pre = s0 ->
  exists new,
    trace (snd (m w')) = trace w ++ new /\ flat_map proj new = s0 ++ s.
Proof.
  intros Hm Hw Hpre. destruct (Hm w') as (n & Hn & Hs).
  exists (pre ++ n). rewrite Hn, Hw, <- app_assoc, flat_map_app, Hpre, Hs.
  split; reflexivity.
Qed.

(** [fakerootCleanup] written out: the helper runs [rm -rf path] through
    the fakeroot engine, with the setuid starter. *)
Lemma fakerootCleanup_eq (env : Env) (path : string) (w : World) :
  fakerootCleanup env path w =
  let h := trace w ++ [EvFakerootCleanupCall path] in
  match bin_FindBin_result env h "rm" with
  | inr err => (Some err, add_events [EvFakerootCleanupCall path; EvFindBin "rm"] w)
  | inl rm =>
      let command := [rm; "-rf"; path] in
      let lg := EvLog Debug "Calling fakeroot engine to execute %q"
                  [ArgString (strings_Join command " ")] in
      let cfg := {| EngineName := fakerootConfig_Name env;
                    StarterContainerID := "fakeroot";
                    Args := command |} in
      (starter_Run_result env (h ++ [EvFindBin "rm"; lg]) cfg,
       add_events [EvFakerootCleanupCall path; EvFindBin "rm"; lg;
                   EvStarterRun "Singularity fakeroot" cfg true] w)
  end.
Proof.
  unfold fakerootCleanup, bind, emit, sylog, emit, extern, record, add_events.
  cbn [trace effective fst snd].
  destruct (bin_FindBin_result env _ "rm") as [rm|err];
    cbn [trace effective]; rewrite <- ?app_assoc; reflexivity.
Qed.

(** C7 (as amended).  [CleanupContainer] removes the recorded temporary
    directory exactly when the path is not empty and the image was not
    served through FUSE.  It then does so through a privilege-escalated
    helper subprocess exactly when the configuration says fakeroot and
    [os.Getuid] is not 0: the fakeroot engine running [rm -rf] on the
    directory, started once by [starter.Run] with the setuid starter, provided
    [bin.FindBin] finds [rm] (when it does not, nothing is removed); and by
    one call of [os.RemoveAll] on the directory otherwise.  With an empty
    path, or with an image served through FUSE, it makes no removal. *)
Theorem CleanupContainer_removes_tempdir (env : Env) (g : Globals)
    (e : EngineOperations) (w : World) :
  let tempDir := GetDeleteTempDir (engineConfig e) in
  let h := trace w ++ [EvStopFuseDrivers;
                       EvLog Verbose "Removing image tempDir %s" [ArgString tempDir];
                       EvLog Info "Cleaning up image..." []] in
  let uid := os_Getuid env h in
  exists new,
    trace (snd (CleanupContainer env g e w)) = trace w ++ new
    /\ flat_map removal_of_event new
       = if negb (String.eqb tempDir "") && negb (GetImageFuse (engineConfig e)) then
           if GetFakeroot (engineConfig e) && negb (uid =? 0)%Z then
             match bin_FindBin_result env
                     (h ++ [EvGetuid; EvFakerootCleanupCall tempDir]) "rm" with
             | inl rm => [fakeroot_rm env rm tempDir]
             | inr _ => []
             end
           else [Plain tempDir]
         else [].
Proof.
  intros tempDir h uid. unfold CleanupContainer, sylog, emit. cbv zeta. fold tempDir.
  destruct (networkSetup g) as [ns|], (cgroupsManager g) as [cg|];
    (destruct (negb (String.eqb tempDir "") && negb (GetImageFuse (engineConfig e))) eqn:Hc;
     [ apply andb_prop in Hc as [_ Hfuse]; apply negb_true_iff in Hfuse;
       rewrite Hfuse; step_run;
       destruct (GetFakeroot (engineConfig e)); step_run;
       cbn [record trace andb]; rewrite <- ?app_assoc; cbn [app]; fold h; fold uid;
       [ destruct (negb (uid =? 0)%Z);
         [ rewrite bind_run, fakerootCleanup_eq; cbv zeta;
           unfold record, add_events, h; cbn [trace effective];
           rewrite <- ?app_assoc; cbn [app];
           destruct (bin_FindBin_result env _ "rm") as [rm|err]; cbn [fst snd];
           [ refine (emits_after removal_of_event _ [fakeroot_rm env rm tempDir] _
                       [EvStopFuseDrivers; EvLog Verbose _ _; EvLog Info _ _; EvGetuid;
                        EvFakerootCleanupCall tempDir; EvFindBin "rm"; EvLog Debug _ _;
                        EvStarterRun _ _ _]
                       w _ _ _ eq_refl);
             [ emits_go removal_silent
             | cbn [trace]; rewrite <- ?app_assoc; reflexivity ]
           | refine (emits_after removal_of_event _ [] _
                       [EvStopFuseDrivers; EvLog Verbose _ _; EvLog Info _ _; EvGetuid;
                        EvFakerootCleanupCall tempDir; EvFindBin "rm"]
                       w _ _ _ eq_refl);
             [ emits_go removal_silent
             | cbn [trace]; rewrite <- ?app_assoc; reflexivity ] ]
         | step_run;
           refine (emits_after removal_of_event _ [Plain tempDir] _
                     [EvStopFuseDrivers; EvLog Verbose _ _; EvLog Info _ _; EvGetuid;
                      EvRemoveAll tempDir]
                     w _ _ _ eq_refl);
           [ emits_go removal_silent
           | unfold record; cbn [trace]; rewrite <- ?app_assoc; reflexivity ] ]
       | step_run;
         refine (emits_after removal_of_event _ [Plain tempDir] _
                   [EvStopFuseDrivers; EvLog Verbose _ _; EvLog Info _ _;
                    EvRemoveAll tempDir]
                   w _ _ _ eq_refl);
         [ emits_go removal_silent
         | unfold record; cbn [trace]; rewrite <- ?app_assoc; reflexivity ] ]
     | refine (emits_after removal_of_event _ [] [] [] w w _ _ eq_refl);
       [ emits_go removal_silent | now rewrite app_nil_r ] ]).
Qed.

(** C7 (as stated) fails: with an image served through FUSE the recorded
    temporary directory is left alone. *)
Lemma tempdir_kept_with_image_fuse :
  ~ tempdir_always_removed.
Proof.
  intros H.
  destruct (H CleanupFixtures.quiet CleanupFixtures.one_point
              {| engineConfig := {| GetImageFuse := true;
                                    GetDeleteTempDir := "/tmp/rootfs-123";
                                    GetFakeroot := false;
                                    GetNetwork := "none";
                                    GetInstance := false |};
                 commonConfig := {| ContainerID := "c1" |} |}
              CleanupFixtures.start)
    as (new & Hnew & Hrem).
  { discriminate. }
  vm_compute in Hnew. subst new. apply Hrem. reflexivity.
Qed.

(** Two runs of C7 under fakeroot, as a user that is not root: the
    directory is removed by the fakeroot engine running [rm -rf] under the
    setuid starter; and where no [rm] is found, nothing is removed and the
    failure is logged. *)
Example tempdir_removed_by_fakeroot_subprocess :
  flat_map removal_of_event
    (trace (snd (CleanupContainer CleanupFixtures.quiet CleanupFixtures.one_point
                   CleanupFixtures.fakeroot_instance CleanupFixtures.start)))
  = [ViaFakeroot "Singularity fakeroot"
       {| EngineName := "fakeroot"; StarterContainerID := "fakeroot";
          Args := ["/usr/bin/rm"; "-rf"; "/tmp/rootfs-123"] |} true].
Proof. reflexivity. Qed.

Example tempdir_kept_without_rm :
  let r := CleanupContainer CleanupFixtures.no_rm CleanupFixtures.one_point
             CleanupFixtures.fakeroot_instance CleanupFixtures.start in
  flat_map removal_of_event (trace (snd r)) = []
  /\ CleanupFixtures.complaints (trace (snd r))
     = ["failed to delete container image tempDir %s: %s"].
Proof. split; reflexivity. Qed.

(** Two runs of the amended bound: nine "device busy" answers, then success
    on the tenth attempt; and "device busy" for good, fatal at the eleventh
    attempt. *)
Lemma umount_busy_retry_bound_witness :
  umount_loop (CleanupFixtures.busy_then_ok 9) CleanupFixtures.one_point 1 0 None
    CleanupFixtures.start
  = (Next None,
     add_events (repeat (EvUnmount "/mnt" 0) 10)
       (record (EvLog Debug "Umount %s" [ArgString "/mnt"]) CleanupFixtures.start))
  /\ umount_loop (CleanupFixtures.always_errno EBUSY) CleanupFixtures.one_point 1 0 None
       CleanupFixtures.start
     = (Return (unmount_error "/mnt" EBUSY),
        add_events (repeat (EvUnmount "/mnt" 0) 11)
          (record (EvLog Debug "Umount %s" [ArgString "/mnt"]) CleanupFixtures.start)).
Proof.
  split.
  - refine (proj1 (umount_busy_retry_bound (CleanupFixtures.busy_then_ok 9)
                     CleanupFixtures.one_point 0 None 0 CleanupFixtures.start 9 _) _ _).
    + intros j Hj.
      do 9 (destruct j as [|j]; [reflexivity|]). lia.
    + lia.
    + reflexivity.
  - refine (proj2 (umount_busy_retry_bound (CleanupFixtures.always_errno EBUSY)
                     CleanupFixtures.one_point 0 None 0 CleanupFixtures.start 11 _) _).
    + intros j Hj. reflexivity.
    + reflexivity.
Defined.

(** C2 (as stated) fails: ten "device busy" answers in a row are not fatal.
    The loop makes an eleventh attempt, and when that one succeeds [umount]
    succeeds. *)
Lemma ten_busy_answers_are_not_fatal :
  ~ busy_is_fatal_after 10
  /\ fst (umount (CleanupFixtures.busy_then_ok 10) CleanupFixtures.one_point false
            CleanupFixtures.start) = None
  /\ CleanupFixtures.unmount_calls
       (trace (snd (umount (CleanupFixtures.busy_then_ok 10) CleanupFixtures.one_point
                      false CleanupFixtures.start))) = 11.
Proof.
  split; [|split; reflexivity].
  intros H.
  specialize (H (CleanupFixtures.busy_then_ok 10) CleanupFixtures.one_point 0%Z None 0
                CleanupFixtures.start).
  cbv zeta in H.
  assert (Hbusy : forall j, j < 10 ->
            sys_Unmount (CleanupFixtures.busy_then_ok 10)
              (trace (record (EvLog Debug "Umount %s"
                                [ArgString (nth 0 (umountPoints CleanupFixtures.one_point) "")])
                        CleanupFixtures.start)
               ++ repeat (EvUnmount (nth 0 (umountPoints CleanupFixtures.one_point) "") 0) j)
              (nth 0 (umountPoints CleanupFixtures.one_point) "") 0 = Some EBUSY).
  { intros j Hj. do 10 (destruct j as [|j]; [reflexivity|]). lia. }
  specialize (H Hbusy). vm_compute in H. discriminate H.
Qed.

(** A run of C10: "device busy" past the ten retries on the last registered
    point; the two points registered before it are not attempted, nor would
    any registered earlier still. *)
Lemma umount_stops_at_fatal_witness :
  fst (umount (CleanupFixtures.always_errno EBUSY) CleanupFixtures.three_points false
         CleanupFixtures.start)
  = Some (unmount_error "/c" EBUSY)
  /\ [EvSetProcessEffective 0; EvUnlockOSThread]
     = [EvSetProcessEffective (effective CleanupFixtures.start); EvUnlockOSThread]
  /\ umount (CleanupFixtures.always_errno EBUSY)
       (register_before ["/x"; "/y"] CleanupFixtures.three_points) false
       CleanupFixtures.start
     = umount (CleanupFixtures.always_errno EBUSY) CleanupFixtures.three_points false
         CleanupFixtures.start.
Proof.
  apply (umount_stops_at_fatal (CleanupFixtures.always_errno EBUSY)
           CleanupFixtures.three_points false CleanupFixtures.start
           ([EvUmountCall false; EvLockOSThread; EvSetProcessEffective 2097152;
             EvLog Debug "Umount %s" [ArgString "/c"]]
            ++ repeat (EvUnmount "/c" 0) 10)
           "/c" 0%Z [EvSetProcessEffective 0; EvUnlockOSThread] EBUSY ["/x"; "/y"]).
  - reflexivity.
  - reflexivity.
Defined.

(** A run of C9 in which the loop succeeds and the restore fails: the error
    of the restore is what [umount] returns. *)
Lemma umount_capability_bracket_witness :
  (forall e,
     capset_error (CleanupFixtures.raise_fails CleanupFixtures.quiet)
       [EvUmountCall true; EvLockOSThread] 2097152 = Some e ->
     umount (CleanupFixtures.raise_fails CleanupFixtures.quiet)
       CleanupFixtures.three_points true CleanupFixtures.start
     = (Some e, add_events [EvUmountCall true; EvLockOSThread;
                            EvSetProcessEffective 2097152; EvUnlockOSThread]
                  CleanupFixtures.start))
  /\ fst (umount (CleanupFixtures.restore_fails CleanupFixtures.quiet)
            CleanupFixtures.three_points true CleanupFixtures.start)
     = Some (ErrorString "capset: operation not permitted").
Proof.
  split.
  - intros e He.
    exact (proj1 (umount_capability_bracket
                    (CleanupFixtures.raise_fails CleanupFixtures.quiet)
                    CleanupFixtures.three_points true CleanupFixtures.start) e He).
  - destruct (proj2 (umount_capability_bracket
                       (CleanupFixtures.restore_fails CleanupFixtures.quiet)
                       CleanupFixtures.three_points true CleanupFixtures.start) eq_refl)
      as (mid & r & Hloop & _ & _ & Hret).
    rewrite Hret. clear Hret.
    vm_compute in Hloop. injection Hloop as <- <-. reflexivity.
Defined.

(** C9 (as stated) fails: when the loop has left an error, a failure of the
    restore is dropped and the caller gets the error of the loop. *)
Lemma restore_failure_is_masked :
  ~ restore_failure_propagates
  /\ fst (umount (CleanupFixtures.restore_fails (CleanupFixtures.always_errno 1))
            CleanupFixtures.three_points true CleanupFixtures.start)
     = Some (unmount_error "/c" 1).
Proof.
  split; [|reflexivity].
  intros H.
  specialize (H (CleanupFixtures.restore_fails (CleanupFixtures.always_errno 1))
                CleanupFixtures.three_points true CleanupFixtures.start
                (ErrorString "capset: operation not permitted") eq_refl eq_refl).
  vm_compute in H. discriminate H.
Qed.

(** C8 at its failing input.  With one registered point that is not a mount
    point, the EINVAL that the loop means to ignore is still in the named
    result when the loop ends, and [umount] returns it; the same answer on a
    point that is not the last one attempted is swallowed; and through
    [cleanupCrypt] the returned EINVAL keeps the crypt device from being
    closed. *)
Theorem umount_returns_EINVAL_of_last_attempt :
  umount (CleanupFixtures.not_mounted "/mnt") CleanupFixtures.one_point false
    CleanupFixtures.start
  = (Some (Errno EINVAL),
     add_events [EvUmountCall false; EvLockOSThread; EvSetProcessEffective 2097152;
                 EvLog Debug "Umount %s" [ArgString "/mnt"]; EvUnmount "/mnt" 0;
                 EvSetProcessEffective 0; EvUnlockOSThread] CleanupFixtures.start)
  /\ fst (umount (CleanupFixtures.not_mounted "/b") CleanupFixtures.three_points false
            CleanupFixtures.start) = None
  /\ fst (umount (CleanupFixtures.not_mounted "/a") CleanupFixtures.three_points false
            CleanupFixtures.start) = Some (Errno EINVAL)
  /\ fst (cleanupCrypt (CleanupFixtures.not_mounted "/a") CleanupFixtures.everything_set_up
            "/dev/mapper/crypt0" CleanupFixtures.start) = Some (Errno EINVAL)
  /\ existsb (fun ev => match ev with EvCloseCryptDevice _ => true | _ => false end)
       (trace (snd (cleanupCrypt (CleanupFixtures.not_mounted "/a")
                      CleanupFixtures.everything_set_up "/dev/mapper/crypt0"
                      CleanupFixtures.start))) = false.
Proof. repeat split. Qed.

(** In general: whenever the last attempt of the loop (the one on the
    first registered point) is answered EINVAL, that errno is what the loop
    hands to [return err]. *)
Lemma umount_loop_keeps_last_EINVAL (env : Env) (g : Globals) (f : Z)
    (err : option error) (w : World) :
  let p := nth 0 (umountPoints g) "" in
  let w1 := record (EvLog Debug "Umount %s" [ArgString p]) w in
  sys_Unmount env (trace w1) p f = Some EINVAL ->
  umount_loop env g 1 f err w = (Next (Some (Errno EINVAL)), record (EvUnmount p f) w1).
Proof.
  intros p w1 H. rewrite umount_loop_S. cbv zeta. fold p. fold w1.
  rewrite unmount_retry_eq. cbv zeta. rewrite H. reflexivity.
Qed.

End CleanupFacts.


(** * Properties of [startup] *)


Module StarterFacts.
Import Starter.

(** Brings a world reached by [startup] to the form [add_events _ w]. *)
Ltac settle_world :=
  unfold add_events; cbn [trace]; rewrite <- ?app_assoc; cbn [app]; reflexivity.

(** Unfolds [startup] down to the answers of the environment. *)
Ltac run_startup :=
  unfold startup, getEngine, sconfig_Release, mainthread_Execute, stage, sylog,
    sylog_Fatalf, bindP, bind, extern, ret, record; cbn [trace].

(** C3 (as amended).  [startup] always ends the process, and invokes at
    most one stage function, never one that belongs to another selector
    value.  Which of the two it is, is decided by the answers of
    [engine.Get] and of [Release]: when the runtime engine cannot be
    initialised, no stage function is invoked and the process ends through
    [Fatalf] (status 255); when it can, stage one invokes [StageOne] without
    any release, and each of the other four selector values releases the
    shared configuration first and invokes exactly its stage function when
    the release succeeds, and no stage function at all when it fails, the
    process then ending through [Fatalf] right after the release; any other
    selector value invokes nothing. *)
Theorem startup_dispatch (env : Env) (w : World) :
  exists new code,
    startup env w = (Exited code, add_events new w)
    /\ (invoked new = [] \/ map stage_function (invoked new) = [goexecute env])
    /\ match engine_answer env w with
       | inr err => invoked new = [] /\ code = 255%Z /\ engine_failure env w new
       | inl e =>
           match goexecute env with
           | STAGE1 =>
               map stage_function (invoked new) = [STAGE1]
               /\ filter is_release new = []
           | OTHER _ => invoked new = [] /\ code = 255%Z
           | STAGE2 | MASTER | RPC_SERVER | CLEANUP_HOST =>
               match release_answer env w e with
               | Some rerr =>
                   invoked new = [] /\ code = 255%Z
                   /\ new = before_release env w e
                            ++ [EvRelease; EvLog Fatal "%s" [ArgError rerr]; EvExit 255]
               | None =>
                   map stage_function (invoked new) = [goexecute env]
                   /\ exists rest, new = before_release env w e ++ EvRelease :: rest
               end
           end
       end.
Proof.
  unfold engine_answer, release_answer, before_release, json_config.
  run_startup. rewrite <- ?app_assoc. cbn [app].
  destruct (engine_Get_result env _ _) as [e|err] eqn:He.
  - (* the engine is there: the switch *)
    destruct (goexecute env) eqn:Hsel; cbn [trace]; rewrite <- ?app_assoc; cbn [app];
      try (destruct (Release_result env _) as [rerr|] eqn:Hr; cbn [trace]);
      try (destruct (stage_exit env _ _) as [code|]; cbn [trace]);
      eexists; eexists; (split; [settle_world|]);
      (split; [ first [ now left | now right ] |]);
      first [ split; reflexivity
            | split; [reflexivity|]; split; reflexivity
            | split; [reflexivity|]; eexists; reflexivity ].
  - (* no engine *)
    eexists; eexists; (split; [settle_world|]).
    split; [now left|]. split; [reflexivity|]. split; [reflexivity|].
    exists [EvNewConfig; EvGetJSONConfig], err. split; [reflexivity|].
    rewrite <- He. now rewrite <- ?app_assoc.
Qed.

(** Two runs of C3: the master stage with everything going well, and with a
    release that fails. *)
Lemma startup_dispatch_witness :
  (exists new code,
     startup (StarterFixtures.healthy MASTER) StarterFixtures.start
     = (Exited code, add_events new StarterFixtures.start)
     /\ map stage_function (invoked new) = [MASTER])
  /\ (exists new,
        startup (StarterFixtures.release_fails MASTER) StarterFixtures.start
        = (Exited 255%Z, add_events new StarterFixtures.start)
        /\ invoked new = []).
Proof.
  split.
  - destruct (startup_dispatch (StarterFixtures.healthy MASTER) StarterFixtures.start)
      as (new & code & Hrun & _ & Hsel).
    exists new, code. split; [exact Hrun|].
    cbn in Hsel. exact (proj1 Hsel).
  - destruct (startup_dispatch (StarterFixtures.release_fails MASTER) StarterFixtures.start)
      as (new & code & Hrun & _ & Hsel).
    cbn in Hsel. destruct Hsel as (Hinv & -> & _).
    exists new. split; [exact Hrun | exact Hinv].
Defined.

(** When the engine initialises and the release succeeds, whatever the
    history, each of the five selector values gets its stage function. *)
Lemma startup_dispatch_ok (env : Env) (w : World) :
  (forall h j, exists e, engine_Get_result env h j = inl e) ->
  (forall h, Release_result env h = None) ->
  is_stage_value (goexecute env) = true ->
  exists new,
    trace (snd (startup env w)) = trace w ++ new
    /\ map stage_function (invoked new) = [goexecute env].
Proof.
  intros Hengine Hrelease Hsel. run_startup.
  match goal with
  | |- context [engine_Get_result env ?h ?j] => destruct (Hengine h j) as [e ->]
  end.
  destruct (goexecute env); try discriminate Hsel; cbn [trace];
    rewrite ?Hrelease; cbn [trace];
    destruct (stage_exit env _ _); cbn [fst snd trace];
    eexists; (split; [rewrite <- ?app_assoc; cbn [app]; reflexivity | reflexivity]).
Qed.

(** C3 (as stated) fails: when the release of the shared configuration
    fails at stage two, the process ends and [StageTwo] is not invoked. *)
Lemma no_stage_after_failed_release :
  ~ dispatch_always_invokes
  /\ invoked (trace (snd (startup (StarterFixtures.release_fails STAGE2)
                            StarterFixtures.start))) = [].
Proof.
  split; [|reflexivity].
  intros H.
  destruct (H (StarterFixtures.release_fails STAGE2) StarterFixtures.start eq_refl)
    as (new & Hnew & Hinv).
  vm_compute in Hnew. subst new. discriminate Hinv.
Qed.

End StarterFacts.


(** * Properties of the wrappers of [oci_overlay.go] *)


Module OciOverlayFacts.
Import OciOverlay.

Lemma ends_in_ro_spec (p : string) :
  ends_in_ro p = true <-> exists x : string, p = (x ++ ":ro")%string.
Proof.
  induction p as [|c rest IH]; cbn [ends_in_ro].
  - split; [discriminate|]. intros [[|? x] H]; discriminate H.
  - rewrite orb_true_iff, IH, String.eqb_eq. split.
    + intros [-> | [x ->]]; [now exists ""%string | now exists (String c x)].
    + intros [[|c' x] H].
      * left. exact H.
      * right. exists x. cbn in H. now injection H.
Qed.

Lemma cut_colon_ro (p : string) :
  forall a, cut_colon p = (a, Some "ro") -> ends_in_ro p = true.
Proof.
  induction p as [|c rest IH]; intros a H; simpl in H; [discriminate H|].
  destruct (Ascii.eqb_spec c ":"%char) as [->|Hc].
  - injection H as _ ->. reflexivity.
  - destruct (cut_colon rest) as [a' b'] eqn:Hcut.
    injection H as _ ->.
    cbn [ends_in_ro]. rewrite (IH a' eq_refl). apply orb_true_r.
Qed.

(** A description that the loop takes for read-only ends in [:ro]. *)
Lemma writable_desc_false (p : string) :
  writable_desc p = false -> ends_in_ro p = true.
Proof.
  unfold writable_desc, SplitN_colon_2.
  destruct (cut_colon p) as [a [b|]] eqn:Hcut; cbn; [|discriminate].
  destruct (String.eqb_spec b "ro") as [->|]; [|discriminate].
  intros _. exact (cut_colon_ro p a Hcut).
Qed.

Lemma writable_by_suffix_count (l : list string) :
  List.length (filter writable_by_suffix l) <= List.length (filter writable_desc l).
Proof.
  induction l as [|p l IH]; [reflexivity|]. cbn [filter].
  unfold writable_by_suffix at 1.
  destruct (writable_desc p) eqn:Hw.
  - destruct (negb (ends_in_ro p)); cbn [List.length]; lia.
  - rewrite (writable_desc_false p Hw). cbn [negb]. exact IH.
Qed.

(** Once a writable overlay has been seen, the next one is refused. *)
Lemma scan_overlays_second (l : list string) :
  forall st,
    writableOverlayFound st = true ->
    1 <= List.length (filter writable_desc l) ->
    exists e, scan_overlays l st = Return e.
Proof.
  induction l as [|p l IH]; intros st Hfound Hcount; cbn in Hcount; [lia|].
  cbn [scan_overlays]. cbv zeta.
  cbn [filter] in Hcount.
  destruct (writable_desc p) eqn:Hw.
  - rewrite Hfound. cbn [andb]. eauto.
  - cbn [andb]. apply IH; [exact Hfound | exact Hcount].
Qed.

Lemma scan_overlays_two_writable (l : list string) :
  forall st,
    2 <= List.length (filter writable_desc l) ->
    exists e, scan_overlays l st = Return e.
Proof.
  induction l as [|p l IH]; intros st Hcount; cbn in Hcount; [lia|].
  cbn [scan_overlays]. cbv zeta.
  cbn [filter] in Hcount.
  destruct (writable_desc p) eqn:Hw.
  - destruct (writableOverlayFound st); cbn [andb]; [eauto|].
    apply scan_overlays_second; [reflexivity | cbn [List.length] in Hcount; lia].
  - cbn [andb]. apply IH. exact Hcount.
Qed.

Section Wrappers.
Variable env : Env.

(** C6.  When more than one description of the list is writable (a
    description being writable unless it ends in [:ro]), [WrapWithOverlays]
    returns an error and leaves the world as it found it: no overlay is
    applied or unmounted and the payload is not run. *)
Theorem WrapWithOverlays_rejects_two_writable (f : M World (option error))
    (bundleDir : string) (overlayPaths : list string) (w : World) :
  1 < List.length (filter writable_by_suffix overlayPaths) ->
  exists e, WrapWithOverlays env f bundleDir overlayPaths w = (Some e, w).
Proof.
  intros Hcount. unfold WrapWithOverlays.
  destruct (scan_overlays_two_writable overlayPaths scan_start) as [e He].
  { pose proof (writable_by_suffix_count overlayPaths). lia. }
  unfold scan_start in He. rewrite He. exists e. reflexivity.
Qed.

(** C4.  Once the preparation has succeeded, each wrapper runs the payload
    [f], then its cleanup (the deletion of the tmpfs overlay, the unmount of
    the rootfs overlay), logs the error of the cleanup if there is one, and
    returns exactly what [f] returned. *)
Theorem wrappers_return_payload_error (f : M World (option error)) (bundleDir : string) :
  (forall (w w1 : World) (overlayDir : string),
     prepareWritableTmpfs env bundleDir w = ((overlayDir, None), w1) ->
     let lg := EvLog Debug "Cleaning up writable tmpfs overlay for %s" [ArgString bundleDir] in
     let w2 := snd (f w1) in
     WrapWithWritableTmpFs env f bundleDir w
     = (fst (f w1),
        add_events
          ([lg; EvDeleteOverlayTmpfs bundleDir overlayDir]
           ++ match DeleteOverlayTmpfs_result env (trace w2 ++ [lg]) bundleDir overlayDir with
              | Some ce => [EvLog Error "While cleaning up writable tmpfs: %v" [ArgError ce]]
              | None => []
              end) w2))
  /\ (forall (w : World) (overlayPaths : list string) (ovs : OverlaySet),
        scan_overlays overlayPaths scan_start = Next ovs ->
        let rootFsDir := RootFs_Path env bundleDir in
        ApplyOverlay_result env (trace w) rootFsDir ovs = None ->
        let w2 := snd (f (record (EvApplyOverlay rootFsDir ovs) w)) in
        WrapWithOverlays env f bundleDir overlayPaths w
        = (fst (f (record (EvApplyOverlay rootFsDir ovs) w)),
           add_events
             (EvUnmountOverlay rootFsDir
              :: match UnmountOverlay_result env (trace w2) rootFsDir with
                 | Some ce => [EvLog Error "While unmounting rootfs overlay: %v" [ArgError ce]]
                 | None => []
                 end) w2)).
Proof.
  split.
  - intros w w1 overlayDir Hprep lg w2.
    unfold WrapWithWritableTmpFs, bind. rewrite Hprep.
    subst w2. destruct (f w1) as [err w2]. cbn [fst snd].
    unfold cleanupWritableTmpfs, bind, sylog, extern, ret, record, add_events.
    cbn [trace]. fold lg.
    destruct (DeleteOverlayTmpfs_result env _ bundleDir overlayDir) as [ce|];
      cbn [trace]; rewrite <- ?app_assoc; reflexivity.
  - intros w overlayPaths ovs Hscan rootFsDir Happly w2.
    unfold WrapWithOverlays. unfold scan_start in Hscan. rewrite Hscan.
    fold rootFsDir. unfold bind at 1. unfold extern at 1. rewrite Happly.
    unfold bind. subst w2.
    destruct (f (record (EvApplyOverlay rootFsDir ovs) w)) as [err w2]. cbn [fst snd].
    unfold sylog, extern, ret, record, add_events. cbn [trace].
    destruct (UnmountOverlay_result env _ rootFsDir) as [ce|];
      cbn [trace]; rewrite <- ?app_assoc; reflexivity.
Qed.

End Wrappers.

(** A run of C6: two writable descriptions around a read-only one. *)
Lemma WrapWithOverlays_rejects_two_writable_witness :
  exists e,
    WrapWithOverlays OciOverlayFixtures.cleanup_fails OciOverlayFixtures.failing_payload
      "/bundle" ["/data/a"; "/data/b:ro"; "/data/c:rw"] OciOverlayFixtures.start
    = (Some e, OciOverlayFixtures.start).
Proof.
  apply (WrapWithOverlays_rejects_two_writable OciOverlayFixtures.cleanup_fails
           OciOverlayFixtures.failing_payload "/bundle"
           ["/data/a"; "/data/b:ro"; "/data/c:rw"] OciOverlayFixtures.start).
  cbn. lia.
Defined.

(** A run of C4: the payload fails, both cleanups fail, and each wrapper
    returns the error of the payload. *)
Lemma wrappers_return_payload_error_witness :
  fst (WrapWithWritableTmpFs OciOverlayFixtures.cleanup_fails
         OciOverlayFixtures.failing_payload "/bundle" OciOverlayFixtures.start)
  = Some (ErrorString "exit status 3")
  /\ fst (WrapWithOverlays OciOverlayFixtures.cleanup_fails
            OciOverlayFixtures.failing_payload "/bundle" ["/data/a:ro"; "/data/c"]
            OciOverlayFixtures.start)
     = Some (ErrorString "exit status 3").
Proof.
  split.
  - rewrite (proj1 (wrappers_return_payload_error OciOverlayFixtures.cleanup_fails
                      OciOverlayFixtures.failing_payload "/bundle")
               OciOverlayFixtures.start _ _ eq_refl).
    reflexivity.
  - rewrite (proj2 (wrappers_return_payload_error OciOverlayFixtures.cleanup_fails
                      OciOverlayFixtures.failing_payload "/bundle")
               OciOverlayFixtures.start ["/data/a:ro"; "/data/c"] _ eq_refl eq_refl).
    reflexivity.
Defined.

End OciOverlayFacts.


(** * Properties of the overlay [Set] *)


Module OverlayFacts.
Import Overlay.

Lemma duplicate_found (paths : list string) :
  forall i j,
    i < j -> j < List.length paths ->
    nth i paths "" = nth j paths "" ->
    exists p, duplicate paths = Some p.
Proof.
  induction paths as [|q rest IH]; intros i j Hij Hj Heq; cbn in Hj; [lia|].
  cbn [duplicate].
  destruct (existsb (String.eqb q) rest) eqn:Hex; [eauto|].
  destruct j as [|j]; [lia|]. destruct i as [|i].
  - (* the head is the first of the two *)
    exfalso. cbn [nth] in Heq.
    assert (Hin : In (nth j rest "") rest) by (apply nth_In; lia).
    assert (Htrue : existsb (String.eqb q) rest = true).
    { apply existsb_exists. exists (nth j rest ""). split; [exact Hin|].
      rewrite Heq. apply String.eqb_refl. }
    rewrite Htrue in Hex. discriminate Hex.
  - apply (IH i j); [lia | lia | exact Heq].
Qed.

(** C5.  When two entries of an overlay set (two read-only ones, or a
    read-only one and the writable one) have the same source path, [Mount]
    returns an error and leaves the world as it found it: no mount is
    performed. *)
Theorem Mount_rejects_duplicates (env : Env) (s : Set_) (rootfsDir : string)
    (w : World) (i j : nat) :
  i < j -> j < List.length (items s) ->
  SourcePath (nth i (items s) {| SourcePath := ""; Writable := false |})
  = SourcePath (nth j (items s) {| SourcePath := ""; Writable := false |}) ->
  exists e, Mount env s rootfsDir w = (Some e, w).
Proof.
  intros Hij Hj Heq. unfold Mount.
  destruct (duplicate_found (map SourcePath (items s)) i j) as [p Hp].
  - exact Hij.
  - now rewrite length_map.
  - change "" with (SourcePath {| SourcePath := ""; Writable := false |}).
    now rewrite !map_nth.
  - rewrite Hp. eexists. reflexivity.
Qed.

(** The sets of [TestDuplicateItemsInSet], and a read-only source that is
    also the writable one: all three are refused before any mount. *)
Lemma Mount_rejects_duplicates_witness :
  (exists e, Mount OverlayFixtures.mounts_work OverlayFixtures.duplicate_readonly
               "/tmp/rootfs" OverlayFixtures.start = (Some e, OverlayFixtures.start))
  /\ (exists e, Mount OverlayFixtures.mounts_work OverlayFixtures.duplicate_with_writable
                  "/tmp/rootfs" OverlayFixtures.start = (Some e, OverlayFixtures.start))
  /\ (exists e, Mount OverlayFixtures.mounts_work OverlayFixtures.readonly_is_writable
                  "/tmp/rootfs" OverlayFixtures.start = (Some e, OverlayFixtures.start)).
Proof.
  split; [|split].
  - apply (Mount_rejects_duplicates OverlayFixtures.mounts_work
             OverlayFixtures.duplicate_readonly "/tmp/rootfs" OverlayFixtures.start 1 3);
      [lia | cbn; lia | reflexivity].
  - apply (Mount_rejects_duplicates OverlayFixtures.mounts_work
             OverlayFixtures.duplicate_with_writable "/tmp/rootfs" OverlayFixtures.start 1 3);
      [lia | cbn; lia | reflexivity].
  - apply (Mount_rejects_duplicates OverlayFixtures.mounts_work
             OverlayFixtures.readonly_is_writable "/tmp/rootfs" OverlayFixtures.start 0 2);
      [lia | cbn; lia | reflexivity].
Defined.

(** A set without duplicates is mounted: the validation does not refuse
    everything. *)
Example Mount_distinct_sources :
  Mount OverlayFixtures.mounts_work
    {| ReadonlyOverlays := [OverlayFixtures.ro "/tmp/d1"; OverlayFixtures.ro "/tmp/d2"];
       WritableOverlay := Some {| SourcePath := "/tmp/rw"; Writable := true |} |}
    "/tmp/rootfs" OverlayFixtures.start
  = (None,
     {| trace := [EvMountItem (OverlayFixtures.ro "/tmp/d1");
                  EvMountItem (OverlayFixtures.ro "/tmp/d2");
                  EvMountItem {| SourcePath := "/tmp/rw"; Writable := true |};
                  EvMountOverlay "/tmp/rootfs"
                    [OverlayFixtures.ro "/tmp/d1"; OverlayFixtures.ro "/tmp/d2"]
                    (Some {| SourcePath := "/tmp/rw"; Writable := true |})] |}).
Proof. reflexivity. Qed.

End OverlayFacts.



(** * Further properties of [umount], [cleanupCrypt] and [CleanupContainer] *)

Module CleanupMoreFacts.
Import Cleanup CleanupFacts.

Section Attempts.
Variable env : Env.

(** The block under [retry:] makes at most [11 - retries] attempts. *)
Lemma unmount_retry_count (p : string) (f : Z) :
  forall (fuel retries : nat) (w : World),
    10 <= fuel + retries -> retries <= 10 ->
    exists k,
      snd (unmount_retry env fuel retries p f w)
      = add_events (repeat (EvUnmount p f) (S k)) w
      /\ k + retries <= 10.
Proof.
  induction fuel as [|fuel IH]; intros retries w Hfuel Hret;
    rewrite unmount_retry_eq; cbv zeta.
  - exists 0. split; [|lia].
    destruct (sys_Unmount env (trace w) p f) as [errno|]; [|reflexivity].
    destruct (negb (errno =? EINVAL)%Z); [|reflexivity].
    destruct ((errno =? EBUSY)%Z && (retries <? 10)%nat); reflexivity.
  - destruct (sys_Unmount env (trace w) p f) as [errno|];
      [|exists 0; split; [reflexivity | lia]].
    destruct (negb (errno =? EINVAL)%Z); [|exists 0; split; [reflexivity | lia]].
    destruct (errno =? EBUSY)%Z; cbn [andb]; [|exists 0; split; [reflexivity | lia]].
    destruct (Nat.ltb_spec retries 10); [|exists 0; split; [reflexivity | lia]].
    destruct (IH (S retries) (record (EvUnmount p f) w)) as (k & Hw & Hk); [lia | lia |].
    exists (S k). rewrite Hw, record_add_events, add_events_app. split; [reflexivity | lia].
Qed.

(** What the loop leaves behind: log lines and [unmount(2)] calls only, the
    latter on registered points, with the flags of the loop, and at most 11
    per point. *)
Lemma umount_loop_events (g : Globals) (f : Z) :
  forall (n : nat) (err : option error) (w : World),
    n <= List.length (umountPoints g) ->
    exists new,
      snd (umount_loop env g n f err w) = add_events new w
      /\ (forall ev, In ev new ->
            (exists lvl fmt args, ev = EvLog lvl fmt args)
            \/ (exists p, ev = EvUnmount p f /\ In p (umountPoints g)))
      /\ List.length (filter is_unmount new) <= 11 * n.
Proof.
  induction n as [|i IH]; intros err w Hn.
  - exists []. cbn. rewrite add_events_nil. repeat split; [intros ev [] | lia].
  - rewrite umount_loop_S. cbv zeta.
    set (p := nth i (umountPoints g) "").
    set (lg := EvLog Debug "Umount %s" [ArgString p]).
    assert (Hp : In p (umountPoints g)) by (apply nth_In; lia).
    destruct (unmount_retry_count p f 10 0 (record lg w)) as (k & Hw & Hk); [lia | lia |].
    assert (Hblock : forall ev, In ev (lg :: repeat (EvUnmount p f) (S k)) ->
              (exists lvl fmt args, ev = EvLog lvl fmt args)
              \/ (exists q, ev = EvUnmount q f /\ In q (umountPoints g))).
    { intros ev [<- | Hin]; [left; unfold lg; eauto|].
      apply repeat_spec in Hin. right. exists p. split; assumption. }
    assert (Hcount : List.length (filter is_unmount (lg :: repeat (EvUnmount p f) (S k)))
                     = S k).
    { cbn [filter is_unmount lg]. clear. induction (S k) as [|m IHm]; cbn; [reflexivity|].
      now rewrite IHm. }
    destruct (unmount_retry env 10 0 p f (record lg w)) as [[err'|e] w2];
      cbn [fst snd] in Hw; subst w2.
    + destruct (IH err' (add_events (repeat (EvUnmount p f) (S k)) (record lg w)))
        as (new & Hnew & Hev & Hlen); [lia|].
      exists ((lg :: repeat (EvUnmount p f) (S k)) ++ new). split; [|split].
      * rewrite Hnew, record_add_events, !add_events_app. reflexivity.
      * intros ev Hin. apply in_app_or in Hin as [Hin | Hin]; [now apply Hblock | now apply Hev].
      * rewrite filter_app, length_app, Hcount. lia.
    + exists (lg :: repeat (EvUnmount p f) (S k)). split; [|split].
      * cbn [snd]. rewrite record_add_events, add_events_app. reflexivity.
      * exact Hblock.
      * rewrite Hcount. lia.
Qed.

(** The calls of [umount], whichever way it goes: the mark, the lock, the
    raise, then log lines, unmounts and at most the restore, and the unlock
    last. *)
Lemma umount_events (g : Globals) (lazy : bool) (w : World) :
  exists mid,
    trace (snd (umount env g lazy w))
    = trace w ++ EvUmountCall lazy :: EvLockOSThread
                 :: EvSetProcessEffective (raised_caps env) :: mid ++ [EvUnlockOSThread]
    /\ (forall ev, In ev mid ->
          (exists lvl fmt args, ev = EvLog lvl fmt args)
          \/ (exists p, ev = EvUnmount p (umount_flags lazy) /\ In p (umountPoints g))
          \/ ev = EvSetProcessEffective (effective w))
    /\ List.length (filter is_unmount mid) <= 11 * List.length (umountPoints g).
Proof.
  rewrite umount_eq. cbv zeta.
  destruct (capset_error env _ (raised_caps env)) as [e|].
  - exists []. cbn [snd trace add_events]. rewrite <- app_assoc.
    repeat split; [intros ev [] | cbn; lia].
  - set (w1 := {| trace := _; effective := raised_caps env |}).
    destruct (umount_loop_events g (umount_flags lazy) (List.length (umountPoints g)) None w1)
      as (new & Hw & Hev & Hlen); [lia|].
    rewrite Hw. exists (new ++ [EvSetProcessEffective (effective w)]).
    cbn [snd trace add_events w1]. rewrite <- !app_assoc. split; [reflexivity|]. split.
    + intros ev Hin. apply in_app_or in Hin as [Hin | [<- | []]].
      * destruct (Hev ev Hin) as [H | H]; [now left | now right; left].
      * right; right. reflexivity.
    + rewrite filter_app, length_app. cbn. lia.
Qed.

(** X1.  When the raise of the capability succeeds and every [unmount(2)]
    answers nil or EINVAL, [umount] makes exactly one call per registered
    point, from the last registered to the first, each with the flags chosen
    by [lazy]. *)
Theorem umount_unmounts_in_reverse_order (g : Globals) (lazy : bool) (w : World) :
  (forall h p f, sys_Unmount env h p f = None \/ sys_Unmount env h p f = Some EINVAL) ->
  capset_error env (trace w ++ [EvUmountCall lazy; EvLockOSThread]) (raised_caps env) = None ->
  exists new,
    trace (snd (umount env g lazy w)) = trace w ++ new
    /\ filter is_unmount new
       = map (fun p => EvUnmount p (umount_flags lazy)) (rev (umountPoints g)).
Proof.
  intros Hbenign Hraise. rewrite umount_eq. cbv zeta.
  cbn [trace add_events]. rewrite Hraise.
  set (w1 := {| trace := _; effective := raised_caps env |}).
  destruct (umount_loop_reverse_order env g (umount_flags lazy) Hbenign
              (List.length (umountPoints g)) None w1 (le_n _))
    as (new & err' & Hloop & Hfilter).
  rewrite Hloop. cbn [fst snd trace add_events w1].
  exists ([EvUmountCall lazy; EvLockOSThread; EvSetProcessEffective (raised_caps env)]
          ++ new ++ [EvSetProcessEffective (effective w); EvUnlockOSThread]).
  rewrite <- !app_assoc. split; [reflexivity|].
  cbn [app filter is_unmount]. rewrite filter_app, Hfilter, firstn_all.
  cbn. now rewrite app_nil_r.
Qed.

(** X2.  Whatever the answers, [umount] unmounts registered points only, and
    always with the flags chosen by [lazy]: [MNT_DETACH] when lazy, none
    otherwise. *)
Theorem umount_touches_registered_points_only (g : Globals) (lazy : bool) (w : World) :
  exists new,
    trace (snd (umount env g lazy w)) = trace w ++ new
    /\ forall p f, In (EvUnmount p f) new ->
         In p (umountPoints g) /\ f = (if lazy then MNT_DETACH else 0%Z).
Proof.
  destruct (umount_events g lazy w) as (mid & Htrace & Hev & _).
  eexists. split; [exact Htrace|].
  intros p f Hin.
  destruct Hin as [H | [H | [H | Hin]]]; try discriminate H.
  apply in_app_or in Hin as [Hin | [H | []]]; [|discriminate H].
  destruct (Hev _ Hin) as [(lvl & fmt & args & H) | [(q & H & Hq) | H]];
    try discriminate H.
  injection H as -> ->. split; [exact Hq | reflexivity].
Qed.

Lemma filter_unmount_repeat (p : string) (f : Z) (k : nat) :
  filter is_unmount (repeat (EvUnmount p f) k) = repeat (EvUnmount p f) k.
Proof. induction k as [|k IH]; [reflexivity|]. cbn. now rewrite IH. Qed.

(** The [unmount(2)] calls of the loop, block by block: the points are taken
    from the last registered one backwards, each point that is reached gets
    between one and eleven attempts in a row, and the loop may stop early. *)
Lemma umount_loop_blocks (g : Globals) (f : Z) :
  forall (n : nat) (err : option error) (w : World),
    n <= List.length (umountPoints g) ->
    exists new attempts,
      snd (umount_loop env g n f err w) = add_events new w
      /\ filter is_unmount new = attempts_events f attempts
      /\ map fst attempts
         = firstn (List.length attempts) (rev (firstn n (umountPoints g)))
      /\ Forall (fun a => 1 <= snd a <= 11) attempts.
Proof.
  induction n as [|i IH]; intros err w Hn.
  - exists [], []. cbn. rewrite add_events_nil. repeat split. constructor.
  - rewrite umount_loop_S. cbv zeta.
    set (p := nth i (umountPoints g) "").
    set (lg := EvLog Debug "Umount %s" [ArgString p]).
    destruct (unmount_retry_count p f 10 0 (record lg w)) as (k & Hw & Hk); [lia | lia |].
    assert (Hrev : rev (firstn (S i) (umountPoints g))
                   = p :: rev (firstn i (umountPoints g))).
    { rewrite (firstn_S_nth "") by lia. fold p. now rewrite rev_app_distr. }
    rewrite Hrev.
    destruct (unmount_retry env 10 0 p f (record lg w)) as [[err'|e] w2];
      cbn [fst snd] in Hw; subst w2.
    + destruct (IH err' (add_events (repeat (EvUnmount p f) (S k)) (record lg w)))
        as (new & attempts & Hnew & Hfilter & Hpoints & Hbound); [lia|].
      exists ((lg :: repeat (EvUnmount p f) (S k)) ++ new), ((p, S k) :: attempts).
      split; [|split; [|split]].
      * rewrite Hnew, record_add_events, !add_events_app. reflexivity.
      * rewrite filter_app. change (filter is_unmount (lg :: ?l)) with (filter is_unmount l).
        rewrite filter_unmount_repeat, Hfilter. reflexivity.
      * cbn [map fst List.length firstn]. now rewrite Hpoints.
      * constructor; [cbn [snd]; lia | exact Hbound].
    + exists (lg :: repeat (EvUnmount p f) (S k)), [(p, S k)].
      split; [|split; [|split]].
      * cbn [snd]. rewrite record_add_events, add_events_app. reflexivity.
      * change (filter is_unmount (lg :: ?l)) with (filter is_unmount l).
        rewrite filter_unmount_repeat. unfold attempts_events. cbn [flat_map fst snd].
        now rewrite app_nil_r.
      * reflexivity.
      * constructor; [cbn [snd]; lia | constructor].
Qed.

(** X3.  Whatever the answers, [umount] makes at most 11 [unmount(2)] calls
    per registered point (one attempt and ten retries): its calls come in
    blocks, one block per point from the last registered one backwards, each
    block of one to eleven attempts on that point; the run may stop before
    the first registered point is reached, and with no point registered it
    makes no call. *)
Theorem umount_attempts_are_bounded (g : Globals) (lazy : bool) (w : World) :
  exists new attempts,
    trace (snd (umount env g lazy w)) = trace w ++ new
    /\ filter is_unmount new = attempts_events (umount_flags lazy) attempts
    /\ map fst attempts = firstn (List.length attempts) (rev (umountPoints g))
    /\ Forall (fun a => 1 <= snd a <= 11) attempts.
Proof.
  rewrite umount_eq. cbv zeta.
  destruct (capset_error env _ (raised_caps env)) as [e|].
  - exists [EvUmountCall lazy; EvLockOSThread; EvSetProcessEffective (raised_caps env);
            EvUnlockOSThread], [].
    cbn [snd trace add_events]. rewrite <- app_assoc.
    split; [reflexivity|]. repeat split. constructor.
  - set (w1 := {| trace := _; effective := raised_caps env |}).
    destruct (umount_loop_blocks g (umount_flags lazy) (List.length (umountPoints g)) None w1)
      as (new & attempts & Hw & Hfilter & Hpoints & Hbound); [lia|].
    rewrite Hw. rewrite firstn_all in Hpoints.
    exists ([EvUmountCall lazy; EvLockOSThread; EvSetProcessEffective (raised_caps env)]
            ++ new ++ [EvSetProcessEffective (effective w); EvUnlockOSThread]), attempts.
    cbn [snd trace add_events w1]. rewrite <- !app_assoc.
    split; [reflexivity|]. split; [|split; assumption].
    cbn [app filter is_unmount]. rewrite filter_app, Hfilter. cbn. now rewrite app_nil_r.
Qed.

(** X4.  Every run of [umount] locks the OS thread before anything else,
    unlocks it as its last call, and neither locks nor unlocks in between:
    the capability changes and the unmounts all happen on the locked
    thread, also when the raise or an unmount fails. *)
Theorem umount_holds_the_thread (g : Globals) (lazy : bool) (w : World) :
  exists mid,
    trace (snd (umount env g lazy w))
    = trace w ++ EvUmountCall lazy :: EvLockOSThread :: mid ++ [EvUnlockOSThread]
    /\ forallb (fun ev => negb (is_thread_lock ev)) mid = true.
Proof.
  destruct (umount_events g lazy w) as (mid & Htrace & Hev & _).
  exists (EvSetProcessEffective (raised_caps env) :: mid). split; [exact Htrace|].
  cbn [forallb is_thread_lock negb andb]. apply forallb_forall. intros ev Hin.
  destruct (Hev ev Hin) as [(lvl & fmt & args & ->) | [(q & -> & _) | ->]]; reflexivity.
Qed.

(** X5.  When [umount] returns nil, the effective capability set of the
    thread is the one it had before the call: a success never leaves
    CAP_SYS_ADMIN raised. *)
Theorem umount_success_restores_capabilities (g : Globals) (lazy : bool) (w : World) :
  fst (umount env g lazy w) = None ->
  effective (snd (umount env g lazy w)) = effective w.
Proof.
  rewrite umount_eq. cbv zeta.
  destruct (capset_error env _ (raised_caps env)) as [e|]; [discriminate|].
  cbn [fst snd effective].
  destruct (loop_error _) as [e|]; [discriminate|].
  destruct (capset_error env _ (effective w)) as [e|]; [discriminate | reflexivity].
Qed.

Lemma flat_map_nil {X : Type} (proj : Event -> list X) (l : list Event) :
  (forall ev, In ev l -> proj ev = []) -> flat_map proj l = [].
Proof.
  induction l as [|ev l IH]; intros H; [reflexivity|].
  cbn [flat_map]. rewrite (H ev (or_introl eq_refl)), IH; [reflexivity|].
  intros ev' Hin. apply H. now right.
Qed.

(** X6.  [cleanupCrypt] unmounts strictly (never with [MNT_DETACH]) and
    closes the crypt device, named by the last element of the path, exactly
    when that unmount returned nil; an error of the unmount is returned as it
    is and the device is then left open; an error of the closing is
    replaced by a message that names the device only. *)
Theorem cleanupCrypt_closes_after_strict_unmount (g : Globals) (path : string) (w : World) :
  let um := umount env g false (record (EvCleanupCryptCall path) w) in
  let devName := filepath_Base path in
  exists new,
    trace (snd (cleanupCrypt env g path w)) = trace w ++ new
    /\ (forall p f, In (EvUnmount p f) new -> f = 0%Z)
    /\ flat_map close_of_event new
       = match fst um with None => [devName] | Some _ => [] end
    /\ fst (cleanupCrypt env g path w)
       = match fst um with
         | Some e => Some e
         | None =>
             match CloseCryptDevice_result env (trace (snd um)) devName with
             | Some _ => Some (Errorf "unable to delete crypt device: %s" [ArgString devName])
             | None => None
             end
         end.
Proof.
  intros um devName.
  destruct (umount_events g false (record (EvCleanupCryptCall path) w))
    as (mid & Htrace & Hev & _).
  fold um in Htrace.
  set (inner := EvUmountCall false :: EvLockOSThread
                :: EvSetProcessEffective (raised_caps env) :: mid ++ [EvUnlockOSThread]) in *.
  assert (Hflags : forall p f, In (EvUnmount p f) inner -> f = 0%Z).
  { intros p f [H | [H | [H | Hin]]]; try discriminate H.
    apply in_app_or in Hin as [Hin | [H | []]]; [|discriminate H].
    destruct (Hev _ Hin) as [(lvl & fmt & args & H) | [(q & H & _) | H]];
      try discriminate H.
    now injection H as _ ->. }
  assert (Hclose : flat_map close_of_event inner = []).
  { apply flat_map_nil. intros ev [<- | [<- | [<- | Hin]]]; try reflexivity.
    apply in_app_or in Hin as [Hin | [<- | []]]; [|reflexivity].
    destruct (Hev _ Hin) as [(lvl & fmt & args & ->) | [(q & -> & _) | ->]]; reflexivity. }
  unfold cleanupCrypt, bind, emit, extern. cbn [fst snd].
  fold um. fold devName.
  destruct um as [[e|] w1] eqn:Hum; cbn [fst snd] in *.
  - exists (EvCleanupCryptCall path :: inner). cbn [ret fst snd].
    rewrite Htrace. cbn [record trace]. rewrite <- app_assoc.
    repeat split.
    + intros p f [H | Hin]; [discriminate H | now apply (Hflags p)].
    + cbn [flat_map close_of_event app]. exact Hclose.
  - exists (EvCleanupCryptCall path :: inner ++ [EvCloseCryptDevice devName]).
    destruct (CloseCryptDevice_result env (trace w1) devName) as [ce|];
      cbn [ret fst snd record trace]; rewrite Htrace; cbn [record trace];
      rewrite <- !app_assoc; (repeat split;
        [ intros p f [H | Hin]; [discriminate H|];
          apply in_app_or in Hin as [Hin | [H | []]];
          [now apply (Hflags p) | discriminate H]
        | cbn [flat_map close_of_event app]; rewrite flat_map_app, Hclose; reflexivity ]).
Qed.

End Attempts.

(** *** Projections that see through the helpers *)

Section Helpers.
Context {X : Type} (proj : Event -> list X).
Hypothesis helper_silent : forall ev, helper_event ev = true -> proj ev = [].

Lemma emits_some_of_emits {A : Type} (m : M World A) (s : list X) (P : list X -> Prop) :
  emits proj m s -> P s -> emits_some proj m P.
Proof.
  intros Hm HP w. destruct (Hm w) as (new & Hnew & Hs).
  exists new. split; [exact Hnew | now rewrite Hs].
Qed.

Lemma emits_some_bind_l {A B : Type} (m : M World A) (k : A -> M World B)
    (P : list X -> Prop) :
  emits proj m [] -> (forall a, emits_some proj (k a) P) -> emits_some proj (bind m k) P.
Proof.
  intros Hm Hk w. unfold bind.
  destruct (Hm w) as (n1 & H1 & P1). destruct (m w) as [a w1]. cbn [snd] in H1.
  destruct (Hk a w1) as (n2 & H2 & P2).
  exists (n1 ++ n2). rewrite H2, H1, app_assoc, flat_map_app, P1. split; [reflexivity | exact P2].
Qed.

Lemma emits_some_bind_r {A B : Type} (m : M World A) (k : A -> M World B)
    (P : list X -> Prop) :
  emits_some proj m P -> (forall a, emits proj (k a) []) -> emits_some proj (bind m k) P.
Proof.
  intros Hm Hk w. unfold bind.
  destruct (Hm w) as (n1 & H1 & P1). destruct (m w) as [a w1]. cbn [snd] in H1.
  destruct (Hk a w1) as (n2 & H2 & P2).
  exists (n1 ++ n2). rewrite H2, H1, app_assoc, flat_map_app, P2, app_nil_r.
  split; [reflexivity | exact P1].
Qed.

Lemma emits_bind_eq {A B : Type} (m : M World A) (k : A -> M World B)
    (s s1 s2 : list X) :
  emits proj m s1 -> (forall a, emits proj (k a) s2) -> s = s1 ++ s2 ->
  emits proj (bind m k) s.
Proof. intros Hm Hk ->. now apply emits_bind. Qed.

Lemma helper_umount (env : Env) (g : Globals) (lazy : bool) :
  emits proj (umount env g lazy) [].
Proof.
  intros w. destruct (umount_events env g lazy w) as (mid & Htrace & Hev & _).
  eexists. split; [exact Htrace|].
  apply flat_map_nil. intros ev [<- | [<- | [<- | Hin]]]; try now apply helper_silent.
  apply in_app_or in Hin as [Hin | [<- | []]]; [|now apply helper_silent].
  destruct (Hev _ Hin) as [(lvl & fmt & args & ->) | [(q & -> & _) | ->]];
    now apply helper_silent.
Qed.

Lemma helper_log_if_error (lvl : level) (format : string) (args : error -> list fmt_arg)
    (err : option error) :
  emits proj (log_if_error lvl format args err) [].
Proof.
  destruct err as [e|]; [|apply emits_ret].
  apply emits_extern. now apply helper_silent.
Qed.

Lemma helper_cleanupCrypt (env : Env) (g : Globals) (path : string) :
  emits proj (cleanupCrypt env g path) [].
Proof.
  unfold cleanupCrypt.
  apply emits_bind_l; [apply emits_extern; now apply helper_silent | intros _].
  apply emits_bind_l; [apply helper_umount|].
  intros [e|]; [apply emits_ret|].
  apply emits_bind_l; [apply emits_extern; now apply helper_silent|].
  intros [e|]; apply emits_ret.
Qed.

Lemma helper_fakerootCleanup (env : Env) (path : string) :
  emits proj (fakerootCleanup env path) [].
Proof.
  unfold fakerootCleanup.
  apply emits_bind_l; [apply emits_extern; now apply helper_silent | intros _].
  apply emits_bind_l; [apply emits_extern; now apply helper_silent|].
  intros [rm|e]; [|apply emits_ret].
  cbv zeta. apply emits_bind_l; [apply emits_extern; now apply helper_silent | intros _].
  apply emits_extern. now apply helper_silent.
Qed.

End Helpers.

Lemma priv_helper_silent (ev : Event) : helper_event ev = true -> priv_of_event ev = [].
Proof. destruct ev; try discriminate; reflexivity. Qed.

(** Walks through a piece of [CleanupContainer] that makes no event seen by
    the projection. *)
Ltac emits_nothing silent :=
  cbv zeta;
  lazymatch goal with
  | |- emits _ (ret _) _ => apply emits_ret
  | |- emits _ (bind _ _) _ =>
      apply emits_bind_l; [ emits_nothing silent | intro; emits_nothing silent ]
  | |- emits _ (umount _ _ _) _ => apply (helper_umount _ silent)
  | |- emits _ (cleanupCrypt _ _ _) _ => apply (helper_cleanupCrypt _ silent)
  | |- emits _ (fakerootCleanup _ _) _ => apply (helper_fakerootCleanup _ silent)
  | |- emits _ (log_if_error _ _ _ _) _ => apply (helper_log_if_error _ silent)
  | |- emits _ (sylog _ _ _) _ => apply emits_extern; reflexivity
  | |- emits _ (emit _) _ => apply emits_extern; reflexivity
  | |- emits _ (extern _ _) _ => apply emits_extern; reflexivity
  | |- emits _ (if ?c then _ else _) _ => destruct c; emits_nothing silent
  | |- emits _ (match ?x with inl _ => _ | inr _ => _ end) _ =>
      destruct x; emits_nothing silent
  end.

(** Walks through a piece without branches, collecting what it emits. *)
Ltac emits_collect silent :=
  cbv zeta;
  lazymatch goal with
  | |- emits _ (ret _) _ => apply emits_ret
  | |- emits _ (bind _ _) _ =>
      eapply emits_bind_eq; [ emits_collect silent | intro; emits_collect silent | reflexivity ]
  | |- emits _ (log_if_error _ _ _ _) _ => apply (helper_log_if_error _ silent)
  | |- emits _ (sylog _ _ _) _ => apply emits_extern; reflexivity
  | |- emits _ (emit _) _ => apply emits_extern; reflexivity
  | |- emits _ (extern _ _) _ => apply emits_extern; reflexivity
  end.

(** X7.  In [CleanupContainer] the privileges are escalated only around the
    network detachment: never without a network setup, never for the network
    ["none"]; and an escalation is always followed by the detachment and then
    by the drop of the privileges, whether the detachment fails or not. *)
Theorem CleanupContainer_brackets_privileges (env : Env) (g : Globals)
    (e : EngineOperations) (w : World) :
  exists new,
    trace (snd (CleanupContainer env g e w)) = trace w ++ new
    /\ match networkSetup g with
       | None => flat_map priv_of_event new = []
       | Some _ =>
           if String.eqb (GetNetwork (engineConfig e)) "none"
           then flat_map priv_of_event new = [EvDelNetworks]
           else flat_map priv_of_event new = [EvDelNetworks]
                \/ flat_map priv_of_event new = [EvEscalate; EvDelNetworks; EvDrop]
       end.
Proof.
  revert w.
  change (emits_some priv_of_event (CleanupContainer env g e)
            (fun l => match networkSetup g with
                      | None => l = []
                      | Some _ =>
                          if String.eqb (GetNetwork (engineConfig e)) "none"
                          then l = [EvDelNetworks]
                          else l = [EvDelNetworks] \/ l = [EvEscalate; EvDelNetworks; EvDrop]
                      end)).
  unfold CleanupContainer.
  apply emits_some_bind_l; [emits_nothing priv_helper_silent | intros _].
  apply emits_some_bind_l; [emits_nothing priv_helper_silent | intros _].
  apply emits_some_bind_l; [emits_nothing priv_helper_silent | intros _].
  apply emits_some_bind_r.
  - (* the network *)
    destruct (networkSetup g) as [ns|].
    + cbv zeta.
      apply emits_some_bind_l; [emits_nothing priv_helper_silent | intros euid].
      destruct (String.eqb (GetNetwork (engineConfig e)) "none"); cbn [negb andb].
      * eapply emits_some_of_emits; [emits_collect priv_helper_silent | reflexivity].
      * destruct (negb (euid =? 0)%Z);
          (eapply emits_some_of_emits; [emits_collect priv_helper_silent |]);
          [right | left]; reflexivity.
    + eapply emits_some_of_emits; [apply emits_ret | reflexivity].
  - intros _.
    apply emits_bind_l; [destruct (cgroupsManager g); emits_nothing priv_helper_silent|].
    intros _. emits_nothing priv_helper_silent.
Qed.

(** A run of X1: three points, the middle one not mounted. *)
Lemma umount_unmounts_in_reverse_order_witness :
  exists new,
    trace (snd (umount (CleanupFixtures.not_mounted "/b") CleanupFixtures.three_points true
                  CleanupFixtures.start))
    = trace CleanupFixtures.start ++ new
    /\ filter is_unmount new = [EvUnmount "/c" 2; EvUnmount "/b" 2; EvUnmount "/a" 2].
Proof.
  apply (umount_unmounts_in_reverse_order (CleanupFixtures.not_mounted "/b")
           CleanupFixtures.three_points true CleanupFixtures.start).
  - intros h p f. cbn. destruct (String.eqb p "/b"); [right | left]; reflexivity.
  - reflexivity.
Defined.

(** A run of X5: a raised set is put back to the initial one. *)
Lemma umount_success_restores_capabilities_witness :
  effective (snd (umount CleanupFixtures.quiet CleanupFixtures.three_points false
                    {| trace := []; effective := 5 |})) = 5%Z.
Proof.
  apply (umount_success_restores_capabilities CleanupFixtures.quiet
           CleanupFixtures.three_points false {| trace := []; effective := 5 |}).
  reflexivity.
Defined.

End CleanupMoreFacts.


(** * Further properties of [startup] *)

Module StarterMoreFacts.
Import Starter StarterFacts.

(** Cuts the last [n] events off a list that is known. *)
Ltac split_last n :=
  match goal with
  | |- ?l = _ =>
      let m := eval cbv in (List.length l - n) in
      rewrite <- (firstn_skipn m l) at 1; cbn [firstn skipn]; reflexivity
  end.

(** X8.  The process that runs [startup] always ends, and its exit status
    is the one with which the invoked stage function ended the process; in
    every other case (no engine, no release, a stage function that returns,
    a selector that names no stage) it is 255, after one of the three fatal
    messages of [startup]. *)
Theorem startup_exit_status (env : Env) (w : World) :
  exists new code,
    startup env w = (Exited code, add_events new w)
    /\ ((exists pre call,
           new = pre ++ [EvStage call; EvExit code]
           /\ stage_exit env (trace w ++ pre) call = Some code)
        \/ (code = 255%Z
            /\ exists pre fmt args,
                 new = pre ++ [EvLog Fatal fmt args; EvExit 255] /\ In fmt fatal_formats)).
Proof.
  run_startup.
  destruct (engine_Get_result env _ _) as [e|err] eqn:He.
  - destruct (goexecute env) eqn:Hsel; cbn [trace];
      try (destruct (Release_result env _) as [rerr|] eqn:Hr; cbn [trace]);
      try (destruct (stage_exit env _ _) as [code|] eqn:Hs; cbn [trace]);
      eexists; eexists; (split; [settle_world|]);
      first [ left; eexists; eexists; split;
              [ split_last 2
              | rewrite <- Hs; f_equal; cbn [app]; now rewrite <- ?app_assoc ]
            | right; split; [reflexivity|]; eexists; eexists; eexists; split;
              [ split_last 2 | cbn; tauto ] ].
  - eexists; eexists; (split; [settle_world|]).
    right. split; [reflexivity|]. eexists; eexists; eexists. split; [split_last 2 | cbn; tauto].
Qed.

(** X9.  [startup] keeps the discipline of the shared configuration on
    every path: it reads the configuration, and hands it to [StageOne], only
    before releasing it; it invokes [StageTwo], [Master], [RPCServer] and
    [CleanupHost] only after the release; it releases at most once, and not
    at all at stage one or for a selector that names no stage. *)
Theorem startup_release_discipline (env : Env) (w : World) :
  exists new code,
    startup env w = (Exited code, add_events new w)
    /\ release_discipline false new = true
    /\ match goexecute env with
       | STAGE1 | OTHER _ => filter is_release new = []
       | _ => List.length (filter is_release new) <= 1
       end.
Proof.
  run_startup.
  destruct (engine_Get_result env _ _) as [e|err] eqn:He.
  - destruct (goexecute env) eqn:Hsel; cbn [trace];
      try (destruct (Release_result env _) as [rerr|] eqn:Hr; cbn [trace]);
      try (destruct (stage_exit env _ _) as [code|] eqn:Hs; cbn [trace]);
      eexists; eexists; (split; [settle_world|]);
      (split; [reflexivity | cbn; first [reflexivity | lia]]).
  - eexists; eexists; (split; [settle_world|]).
    split; [reflexivity|]. destruct (goexecute env); cbn; first [reflexivity | lia].
Qed.

(** X10.  [startup] goes through [mainthread.Execute] exactly when the stage
    function it invokes is [StageTwo]: the four other stage functions run on
    the goroutine of [startup], and a stage two that ends before the dispatch
    asks nothing of the main thread. *)
Theorem startup_main_thread_for_stage_two (env : Env) (w : World) :
  exists new code,
    startup env w = (Exited code, add_events new w)
    /\ existsb is_mainthread new
       = match invoked new with
         | [StageTwo _ _] => true
         | _ => false
         end.
Proof.
  run_startup.
  destruct (engine_Get_result env _ _) as [e|err] eqn:He.
  - destruct (goexecute env) eqn:Hsel; cbn [trace];
      try (destruct (Release_result env _) as [rerr|] eqn:Hr; cbn [trace]);
      try (destruct (stage_exit env _ _) as [code|] eqn:Hs; cbn [trace]);
      eexists; eexists; (split; [settle_world | reflexivity]).
  - eexists; eexists; (split; [settle_world | reflexivity]).
Qed.

End StarterMoreFacts.


(** * Further properties of the wrappers of [oci_overlay.go] *)

Module OciOverlayMoreFacts.
Import OciOverlay OciOverlayFacts StringFacts.

(** The loop of [WrapWithOverlays] on a list that it accepts. *)
Lemma scan_overlays_accepts (l : list string) :
  forall st,
    (if writableOverlayFound st
     then List.length (filter writable_desc l) = 0
     else List.length (filter writable_desc l) <= 1) ->
    scan_overlays l st
    = Next {| WritableLoc := match filter writable_desc l with
                             | p :: _ => bare_path p
                             | [] => WritableLoc (ovs_of st)
                             end;
              ReadonlyLocs := ReadonlyLocs (ovs_of st)
                              ++ map bare_path
                                   (filter (fun p => negb (writable_desc p)) l) |}.
Proof.
  induction l as [|p l IH]; intros st Hcount.
  - cbn. rewrite app_nil_r. now destruct st as [found [wl rl]].
  - cbn [scan_overlays filter] in *. cbv zeta.
    destruct (writable_desc p) eqn:Hw; cbn [negb andb List.length] in *.
    + destruct (writableOverlayFound st); [discriminate Hcount|].
      rewrite IH by (cbn; lia). cbn [ovs_of WritableLoc ReadonlyLocs].
      assert (Hnone : filter writable_desc l = []).
      { destruct (filter writable_desc l); [reflexivity | cbn in Hcount; lia]. }
      now rewrite Hnone.
    + rewrite IH by exact Hcount. cbn [ovs_of WritableLoc ReadonlyLocs map].
      now rewrite <- app_assoc.
Qed.

Section Wrappers.
Variable env : Env.

(** X11.  The loop of [WrapWithOverlays] refuses a list of descriptions
    exactly when more than one of them is writable (not of the form
    [path:ro]); a list that it accepts becomes the overlay set whose writable
    location is the bare path of the writable description (empty when there
    is none) and whose read-only locations are the bare paths of the others,
    in the order given. *)
Theorem WrapWithOverlays_builds_overlay_set (overlayPaths : list string) :
  ((exists e, scan_overlays overlayPaths scan_start = Return e)
   <-> 1 < List.length (filter writable_desc overlayPaths))
  /\ (List.length (filter writable_desc overlayPaths) <= 1 ->
      scan_overlays overlayPaths scan_start = Next (overlay_set_of overlayPaths)).
Proof.
  assert (Hacc : List.length (filter writable_desc overlayPaths) <= 1 ->
                 scan_overlays overlayPaths scan_start = Next (overlay_set_of overlayPaths)).
  { intros H. now rewrite (scan_overlays_accepts overlayPaths scan_start H). }
  split; [|exact Hacc]. split.
  - intros [e He].
    destruct (Nat.le_gt_cases (List.length (filter writable_desc overlayPaths)) 1) as [H|H];
      [|exact H].
    rewrite (Hacc H) in He. discriminate He.
  - intros H. now apply scan_overlays_two_writable.
Qed.

(** X12.  When the preparation fails, the wrappers return its error without
    running the payload and without any cleanup: [WrapWithWritableTmpFs]
    when the configuration is not initialised (no tmpfs is then created
    either) or when the creation of the tmpfs overlay fails,
    [WrapWithOverlays] when the overlay cannot be applied. *)
Theorem wrappers_stop_at_failed_preparation (f : M World (option error))
    (bundleDir : string) (w : World) :
  let lg := EvLog Debug "Configuring writable tmpfs overlay for %s" [ArgString bundleDir] in
  (GetCurrentConfig_result env (trace w ++ [lg]) = None ->
   WrapWithWritableTmpFs env f bundleDir w
   = (Some (Errorf "singularity configuration is not initialized" []),
      add_events [lg; EvGetCurrentConfig] w))
  /\ (forall c overlayDir e,
        GetCurrentConfig_result env (trace w ++ [lg]) = Some c ->
        let size := int_of_uint (SessiondirMaxSize c) in
        CreateOverlayTmpfs_result env (trace w ++ [lg; EvGetCurrentConfig]) bundleDir size
        = (overlayDir, Some e) ->
        WrapWithWritableTmpFs env f bundleDir w
        = (Some e, add_events [lg; EvGetCurrentConfig; EvCreateOverlayTmpfs bundleDir size] w))
  /\ (forall overlayPaths e,
        List.length (filter writable_desc overlayPaths) <= 1 ->
        let rootFsDir := RootFs_Path env bundleDir in
        ApplyOverlay_result env (trace w) rootFsDir (overlay_set_of overlayPaths) = Some e ->
        WrapWithOverlays env f bundleDir overlayPaths w
        = (Some e, add_events [EvApplyOverlay rootFsDir (overlay_set_of overlayPaths)] w)).
Proof.
  intros lg. split; [|split].
  - intros Hconf.
    unfold WrapWithWritableTmpFs, prepareWritableTmpfs, bind, sylog, extern, ret, record,
      add_events. cbn [trace]. fold lg. rewrite Hconf. cbn [trace].
    now rewrite <- app_assoc.
  - intros c overlayDir e Hconf size Hcreate.
    unfold WrapWithWritableTmpFs, prepareWritableTmpfs, bind, sylog, extern, ret, record,
      add_events. cbn [trace]. fold lg. rewrite Hconf. cbn [trace]. fold size.
    rewrite <- app_assoc. cbn [app]. rewrite Hcreate. cbn [trace].
    now rewrite <- app_assoc.
  - intros overlayPaths e Hcount rootFsDir Happly.
    unfold WrapWithOverlays. fold scan_start.
    rewrite (scan_overlays_accepts overlayPaths scan_start Hcount).
    change {| WritableLoc := _; ReadonlyLocs := _ |} with (overlay_set_of overlayPaths).
    fold rootFsDir. unfold bind, extern, ret. rewrite Happly. reflexivity.
Qed.

(** X13.  [absOverlay] hands the bare path alone to [filepath.Abs] and puts
    the option back behind the result; when the absolute path holds no
    colon, the new description splits into that path and the option of the
    old one, and is writable exactly when the old one is. *)
Theorem absOverlay_keeps_the_option (desc : string) (w : World) (abs : string) :
  filepath_Abs_result env (trace w) (bare_path desc) = (abs, None) ->
  no_colon abs = true ->
  let out := fst (fst (absOverlay env desc w)) in
  snd (fst (absOverlay env desc w)) = None
  /\ snd (absOverlay env desc w) = record (EvAbs (bare_path desc)) w
  /\ SplitN_colon_2 out = abs :: tl (SplitN_colon_2 desc)
  /\ writable_desc out = writable_desc desc.
Proof.
  intros Habs Hcolon.
  unfold absOverlay, bind, extern, ret. cbv zeta. fold (bare_path desc).
  rewrite Habs. cbn [fst snd].
  unfold writable_desc, SplitN_colon_2.
  destruct (cut_colon desc) as [a [b|]]; cbn [List.length Nat.ltb Nat.leb nth tl].
  - rewrite (cut_colon_append abs b Hcolon). repeat split.
  - rewrite (cut_colon_plain abs Hcolon). repeat split.
Qed.

End Wrappers.

(** A run of X12: the three failures of the preparation. *)
Lemma wrappers_stop_at_failed_preparation_witness :
  fst (WrapWithWritableTmpFs OciOverlayFixtures.no_configuration
         OciOverlayFixtures.failing_payload "/bundle" OciOverlayFixtures.start)
  = Some (Errorf "singularity configuration is not initialized" [])
  /\ fst (WrapWithWritableTmpFs OciOverlayFixtures.preparation_fails
            OciOverlayFixtures.failing_payload "/bundle" OciOverlayFixtures.start)
     = Some (ErrorString "no space left on device")
  /\ WrapWithOverlays OciOverlayFixtures.preparation_fails
       OciOverlayFixtures.failing_payload "/bundle" ["/data/a:ro"; "/data/c"]
       OciOverlayFixtures.start
     = (Some (ErrorString "overlay: permission denied"),
        add_events [EvApplyOverlay "/bundle/rootfs"
                      {| WritableLoc := "/data/c"; ReadonlyLocs := ["/data/a"] |}]
          OciOverlayFixtures.start).
Proof.
  split; [|split].
  - rewrite (proj1 (wrappers_stop_at_failed_preparation OciOverlayFixtures.no_configuration
                      OciOverlayFixtures.failing_payload "/bundle" OciOverlayFixtures.start)
               eq_refl).
    reflexivity.
  - rewrite (proj1 (proj2 (wrappers_stop_at_failed_preparation
                             OciOverlayFixtures.preparation_fails
                             OciOverlayFixtures.failing_payload "/bundle"
                             OciOverlayFixtures.start))
               _ _ _ eq_refl eq_refl).
    reflexivity.
  - exact (proj2 (proj2 (wrappers_stop_at_failed_preparation
                           OciOverlayFixtures.preparation_fails
                           OciOverlayFixtures.failing_payload "/bundle"
                           OciOverlayFixtures.start))
             ["/data/a:ro"; "/data/c"] _ (le_n 1) eq_refl).
Defined.

(** A run of X11: one writable description among read-only ones. *)
Lemma WrapWithOverlays_builds_overlay_set_witness :
  scan_overlays ["/data/a:ro"; "rel/c:rw"; "/data/b:ro"] scan_start
  = Next {| WritableLoc := "rel/c"; ReadonlyLocs := ["/data/a"; "/data/b"] |}.
Proof.
  apply (proj2 (WrapWithOverlays_builds_overlay_set ["/data/a:ro"; "rel/c:rw"; "/data/b:ro"])).
  cbn. lia.
Defined.

(** A run of X13: a relative read-only description. *)
Lemma absOverlay_keeps_the_option_witness :
  fst (absOverlay OciOverlayFixtures.cleanup_fails "layers/base:ro" OciOverlayFixtures.start)
  = ("/cwd/layers/base:ro", None)
  /\ writable_desc "/cwd/layers/base:ro" = writable_desc "layers/base:ro".
Proof.
  destruct (absOverlay_keeps_the_option OciOverlayFixtures.cleanup_fails "layers/base:ro"
              OciOverlayFixtures.start "/cwd/layers/base" eq_refl eq_refl)
    as (_ & _ & _ & Hw).
  split; [reflexivity | exact Hw].
Defined.

(** Without the condition on colons the option can change its meaning: under
    a working directory with a colon in its name, a read-only description
    comes back writable. *)
Example absOverlay_colon_in_directory :
  let env := {| RootFs_Path := fun b => b;
                GetCurrentConfig_result := fun _ => None;
                CreateOverlayTmpfs_result := fun _ _ _ => ("", None);
                DeleteOverlayTmpfs_result := fun _ _ _ => None;
                ApplyOverlay_result := fun _ _ _ => None;
                UnmountOverlay_result := fun _ _ => None;
                filepath_Abs_result := fun _ path => (("/mnt/c:/work/" ++ path)%string, None) |} in
  fst (absOverlay env "base:ro" OciOverlayFixtures.start) = ("/mnt/c:/work/base:ro", None)
  /\ writable_desc "base:ro" = false
  /\ writable_desc "/mnt/c:/work/base:ro" = true.
Proof. repeat split. Qed.

End OciOverlayMoreFacts.


(** * Properties of the transport options and of the image references *)

Module OciImageFacts.
Import OciImage StringFacts.

Section Conversions.
Context {A P D C : Type}.
Variables (zeroA : A) (zeroP : P) (zeroD : D) (zeroC : C).

(** X14.  Turning transport options into a system context and back keeps
    what the two conversions carry: the credentials file, the insecure flag,
    the user agent, the temporary directory, user name, password and identity
    token of the credentials, and OS, architecture and variant of the
    platform.  The Docker daemon host is lost, as are the other fields of the
    credentials and of the platform; the round trip gives the options back
    exactly when those were at their zero value. *)
Theorem TransportOptions_round_trip (t : TransportOptions A P) :
  TransportOptionsFromSystemContext zeroA zeroP (SystemContext zeroD zeroC t)
  = carried zeroA zeroP t
  /\ (carried zeroA zeroP t = t
      <-> DockerDaemonHost t = ""
          /\ v1.other (Platform t) = zeroP
          /\ match AuthConfig t with
             | Some a => authn.other a = zeroA
             | None => True
             end).
Proof.
  destruct t as [auth file insecure host [os arch variant pother] agent tmp].
  split.
  - destruct auth as [[user pass token aother]|], insecure; reflexivity.
  - unfold carried. cbn. split.
    + intros H. injection H as Hauth Hhost Hother.
      repeat split; [now symmetry | now symmetry |].
      destruct auth as [[user pass token aother]|]; [|exact I].
      cbn in Hauth |- *. now injection Hauth as <-.
    + intros (-> & -> & Hauth).
      destruct auth as [[user pass token aother]|]; [|reflexivity].
      cbn in Hauth |- *. now rewrite Hauth.
Qed.

(** X15.  Turning a system context into transport options and back spreads
    the insecure setting: when one of the three settings (Docker registry,
    Docker daemon, OCI) is on, all three are on afterwards; when none is on,
    the registry setting comes back undefined, an explicit false included.
    The fields of the context that the options do not carry are at their
    zero value. *)
Theorem SystemContext_widens_insecure (sc : types.SystemContext D C) :
  let sc' := SystemContext zeroD zeroC (TransportOptionsFromSystemContext zeroA zeroP sc) in
  (if any_insecure sc
   then types.DockerInsecureSkipTLSVerify sc' = types.OptionalBoolTrue
        /\ types.DockerDaemonInsecureSkipTLSVerify sc' = true
        /\ types.OCIInsecureSkipTLSVerify sc' = true
   else types.DockerInsecureSkipTLSVerify sc' = types.OptionalBoolUndefined
        /\ types.DockerDaemonInsecureSkipTLSVerify sc' = false
        /\ types.OCIInsecureSkipTLSVerify sc' = false)
  /\ types.rest sc' = zeroC.
Proof.
  destruct sc as [file tmp agent os arch variant auth docker daemon oci other].
  unfold any_insecure. cbn [types.DockerInsecureSkipTLSVerify
    types.DockerDaemonInsecureSkipTLSVerify types.OCIInsecureSkipTLSVerify].
  destruct auth as [[user pass token dother]|], docker, daemon, oci; cbn; repeat split.
Qed.
End Conversions.

Section Refs.
Context {ImageReference : Type}.
Variable env : Env ImageReference.

(** [SplitN] either finds no colon, or cuts at the first one. *)
Lemma SplitN_cases (s : string) :
  (no_colon s = true /\ SplitN_colon_2 s = [s])
  \/ (exists a b, s = (a ++ ":" ++ b)%string /\ no_colon a = true
                  /\ SplitN_colon_2 s = [a; b]).
Proof.
  unfold SplitN_colon_2.
  pose proof (cut_colon_join s) as Hj. pose proof (cut_colon_no_colon s) as Hn.
  destruct (cut_colon s) as [a [b|]]; cbn [fst] in Hn; cbv beta iota in Hj.
  - right. now exists a, b.
  - left. subst a. now split.
Qed.

(** The transports with a parser are the five of the switch. *)
Lemma transport_parser_known (t : string) :
  transport_parser env t <> None <-> In t transports.
Proof.
  unfold transport_parser, transports.
  repeat match goal with
         | |- context [String.eqb t ?x] =>
             destruct (String.eqb_spec t x) as [->|?];
             [split; [intros _; cbn; tauto | intros _; discriminate]|]
         end.
  split; [intros H; now elim H | cbn; intros H; intuition congruence].
Qed.

(** X16.  [ParseImageRef] succeeds exactly on the references [transport:rest]
    where [transport], the text before the first colon, is one of docker,
    docker-archive, docker-daemon, oci and oci-archive, and the parser of
    that transport takes [rest], the whole text behind the first colon, later
    colons included, without an error; it returns what that parser
    returns. *)
Theorem ParseImageRef_accepts (imageRef : string) (r : option ImageReference) :
  ParseImageRef env imageRef = (r, None)
  <-> exists transport rest ParseReference,
        imageRef = (transport ++ ":" ++ rest)%string
        /\ no_colon transport = true
        /\ In transport transports
        /\ transport_parser env transport = Some ParseReference
        /\ ParseReference rest = (r, None).
Proof.
  unfold ParseImageRef. split.
  - destruct (SplitN_cases imageRef) as [[_ ->]|(a & b & Heq & Hn & ->)];
      cbn [List.length Nat.ltb Nat.leb nth]; [discriminate|].
    destruct (transport_parser env a) as [parse|] eqn:Hp; [|discriminate].
    destruct (parse b) as [srcRef [e|]] eqn:Hb; [discriminate|].
    intros H. injection H as <-.
    exists a, b, parse. repeat split; try assumption.
    apply transport_parser_known. rewrite Hp. discriminate.
  - intros (a & b & parse & -> & Hn & _ & Hp & Hb).
    unfold SplitN_colon_2. rewrite (cut_colon_append a b Hn).
    cbn [List.length Nat.ltb Nat.leb nth]. now rewrite Hp, Hb.
Qed.

(** The switch of [parseRef] is that of [ParseImageRef] without the Docker
    daemon. *)
Lemma e2e_transport_parser_spec (t : string) :
  if String.eqb t "docker-daemon"
  then e2e_transport_parser env t = None
  else e2e_transport_parser env t = transport_parser env t.
Proof.
  unfold e2e_transport_parser, transport_parser.
  destruct (String.eqb_spec t "docker-daemon") as [->|Hd]; [reflexivity|].
  repeat (destruct (String.eqb t _); [reflexivity|]). reflexivity.
Qed.

(** X17.  [parseRef] of the end-to-end tests and [ParseImageRef] agree: what
    [parseRef] takes without an error, [ParseImageRef] returns as well, and
    what [ParseImageRef] takes, [parseRef] returns as well unless the
    transport is docker-daemon, which [parseRef] always refuses. *)
Theorem parseRef_agrees_with_ParseImageRef (refString : string) :
  let transport := nth 0 (SplitN_colon_2 refString) "" in
  (snd (parseRef env refString) = None ->
   ParseImageRef env refString = parseRef env refString)
  /\ (snd (ParseImageRef env refString) = None ->
      transport <> "docker-daemon" ->
      parseRef env refString = ParseImageRef env refString)
  /\ (transport = "docker-daemon" ->
      1 < List.length (SplitN_colon_2 refString) ->
      parseRef env refString
      = (None, Some (Errorf "cannot create an OCI container from %s source"
                       [ArgString "docker-daemon"]))).
Proof.
  unfold parseRef, ParseImageRef.
  destruct (SplitN_cases refString) as [[_ ->]|(a & b & _ & _ & ->)];
    cbn [List.length Nat.ltb Nat.leb nth]; cbv zeta.
  - repeat split; try reflexivity. intros _ H. exfalso. lia.
  - pose proof (e2e_transport_parser_spec a) as He.
    destruct (String.eqb_spec a "docker-daemon") as [->|Hd].
    + rewrite He. repeat split; try discriminate; try reflexivity.
      intros _ H. now elim H.
    + rewrite He. repeat split.
      * destruct (transport_parser env a) as [parse|]; [|reflexivity].
        destruct (parse b) as [srcRef [e|]]; [discriminate | reflexivity].
      * destruct (transport_parser env a) as [parse|]; [|reflexivity].
        destruct (parse b) as [srcRef [e|]]; [discriminate | reflexivity].
      * intros H. contradiction.
Qed.
End Refs.

(** A run of X14: options without a daemon host come back unchanged. *)
Lemma TransportOptions_round_trip_witness :
  TransportOptionsFromSystemContext tt tt
    (SystemContext tt tt OciImageFixtures.registry_options
     : types.SystemContext unit unit)
  = OciImageFixtures.registry_options.
Proof.
  destruct (TransportOptions_round_trip tt tt tt tt OciImageFixtures.registry_options)
    as [Hrt Hid].
  rewrite Hrt. apply Hid. repeat split.
Defined.

(** A run of X15: insecure for OCI layouts becomes insecure for the
    registry. *)
Lemma SystemContext_widens_insecure_witness :
  types.DockerInsecureSkipTLSVerify OciImageFixtures.oci_insecure_only
  = types.OptionalBoolFalse
  /\ types.DockerInsecureSkipTLSVerify
       (SystemContext tt tt
          (TransportOptionsFromSystemContext tt tt OciImageFixtures.oci_insecure_only
           : TransportOptions unit unit)
        : types.SystemContext unit unit)
     = types.OptionalBoolTrue.
Proof.
  split; [reflexivity|].
  exact (proj1 (proj1 (SystemContext_widens_insecure tt tt tt tt
                         OciImageFixtures.oci_insecure_only))).
Defined.

(** A run of X16: the colons of the registry port and of the tag stay in the
    reference handed to the parser. *)
Lemma ParseImageRef_accepts_witness :
  ParseImageRef OciImageFixtures.parsers "docker://localhost:5000/alpine:3.18"
  = (Some ("docker", "//localhost:5000/alpine:3.18"), None).
Proof.
  apply (proj2 (ParseImageRef_accepts OciImageFixtures.parsers
                  "docker://localhost:5000/alpine:3.18" _)).
  exists "docker", "//localhost:5000/alpine:3.18",
    (docker_ParseReference OciImageFixtures.parsers).
  repeat split. cbn. tauto.
Defined.

(** A run of X17: an archive is taken by both, the daemon by one. *)
Lemma parseRef_agrees_with_ParseImageRef_witness :
  ParseImageRef OciImageFixtures.parsers "oci-archive:/tmp/image.tar"
  = parseRef OciImageFixtures.parsers "oci-archive:/tmp/image.tar"
  /\ snd (ParseImageRef OciImageFixtures.parsers "docker-daemon:alpine:latest") = None
  /\ parseRef OciImageFixtures.parsers "docker-daemon:alpine:latest"
     = (None, Some (Errorf "cannot create an OCI container from %s source"
                      [ArgString "docker-daemon"])).
Proof.
  split; [|split].
  - exact (proj1 (parseRef_agrees_with_ParseImageRef OciImageFixtures.parsers
                    "oci-archive:/tmp/image.tar") eq_refl).
  - reflexivity.
  - apply (proj2 (proj2 (parseRef_agrees_with_ParseImageRef OciImageFixtures.parsers
                           "docker-daemon:alpine:latest"))); [reflexivity | cbn; lia].
Defined.

End OciImageFacts.
